(** * OsintBox backend: DNS enumeration graph builder and port scanner

    Shallow embedding of [dns_enumerator.py] and [port_scanner.py] of the
    FastAPI backend service, and the properties of their specification.

    Conventions of the embedding.
    - A Python [str] is held as the [string] of the bytes of its UTF-8
      encoding, so an ASCII character is one byte. [str.lower], [str.strip]
      and the classes [\d], [\s] of the MX pattern, which is applied to
      record text of the DNS service, are the ASCII ones. The class [\d]
      of the IPv4 pattern, which is applied to text that the caller
      supplies, is the Unicode one: the digits 0-9 and the non-ASCII
      characters that the Unicode tables of the interpreter count as
      decimal digits.
    - Python [int] node ids and port numbers are unbounded: [nat] and [Z].
    - The dict [node_map] is a [gmap string nat]; the set
      [discovered_subdomains] is a [gset string] whose iteration order is
      supplied by the environment.
    - Network calls are answered by an environment ([World]) whose replies
      may depend on the requests issued so far; every call is recorded in a
      request log.
    - Exceptions that a function lets escape are an explicit [Raise]
      outcome. *)

From stdpp Require Import gmap strings list fin_maps sorting.
From Stdlib Require Import Ascii ZArith Lia.

Local Open Scope Z_scope.
Local Open Scope nat_scope.

(** String concatenation unfolds on a constructor, as list append does. *)
#[global] Arguments String.append !_ _ / : simpl nomatch.

(** ** Python string methods used by the two modules *)

Module PyStr.

Definition code (c : ascii) : nat := nat_of_ascii c.

(** [c.isupper()] on ASCII. *)
Definition isupper (c : ascii) : bool := (65 <=? code c) && (code c <=? 90).

Definition lower_char (c : ascii) : ascii :=
  if isupper c then ascii_of_nat (code c + 32) else c.

(** [s.lower()] *)
Fixpoint lower (s : string) : string :=
  match s with
  | EmptyString => EmptyString
  | String c r => String (lower_char c) (lower r)
  end.

(** [c.isspace()] on ASCII: TAB, LF, VT, FF, CR, FS, GS, RS, US, SPACE. *)
Definition isspace (c : ascii) : bool :=
  ((9 <=? code c) && (code c <=? 13)) || ((28 <=? code c) && (code c <=? 32)).

(** The digits 0-9: [c.isdigit()], and the class [\d], on ASCII. *)
Definition isdigit (c : ascii) : bool := (48 <=? code c) && (code c <=? 57).

Fixpoint lstrip_by (p : ascii -> bool) (s : string) : string :=
  match s with
  | EmptyString => EmptyString
  | String c r => if p c then lstrip_by p r else s
  end.

Fixpoint rstrip_by (p : ascii -> bool) (s : string) : string :=
  match s with
  | EmptyString => EmptyString
  | String c r =>
      match rstrip_by p r with
      | EmptyString => if p c then EmptyString else String c EmptyString
      | r' => String c r'
      end
  end.

Definition strip_by (p : ascii -> bool) (s : string) : string :=
  rstrip_by p (lstrip_by p s).

(** [s.strip()] *)
Definition strip : string -> string := strip_by isspace.

Fixpoint char_in (c : ascii) (chars : string) : bool :=
  match chars with
  | EmptyString => false
  | String d r => if Ascii.eqb c d then true else char_in c r
  end.

(** [s.strip(chars)] *)
Definition strip_chars (chars : string) : string -> string :=
  strip_by (fun c => char_in c chars).

(** [s.startswith(pre)] *)
Fixpoint startswith (s pre : string) {struct pre} : bool :=
  match pre with
  | EmptyString => true
  | String a pre' =>
      match s with
      | EmptyString => false
      | String b s' => if Ascii.eqb a b then startswith s' pre' else false
      end
  end.

(** [needle in hay] *)
Fixpoint contains (needle hay : string) : bool :=
  startswith hay needle ||
  match hay with
  | EmptyString => false
  | String _ r => contains needle r
  end.

(** [s.endswith(suf)]: some suffix of [s] is [suf]. *)
Fixpoint endswith (s suf : string) : bool :=
  String.eqb s suf ||
  match s with
  | EmptyString => false
  | String _ r => endswith r suf
  end.

(** [s.replace('*.', '')]: every occurrence removed, scanning left to
    right. *)
Fixpoint replace_star_dot (s : string) : string :=
  match s with
  | EmptyString => EmptyString
  | String c r =>
      match r with
      | String d r' =>
          if Ascii.eqb c "*" && Ascii.eqb d "."
          then replace_star_dot r'
          else String c (replace_star_dot r)
      | EmptyString => String c EmptyString
      end
  end.

(** [s.split(sep)] for a one-character separator. *)
Fixpoint split (sep : ascii) (s : string) : list string :=
  match s with
  | EmptyString => [EmptyString]
  | String c r =>
      if Ascii.eqb c sep then EmptyString :: split sep r
      else match split sep r with
           | h :: t => String c h :: t
           | [] => [String c EmptyString]
           end
  end.

(** [sep.join(l)] *)
Fixpoint join (sep : string) (l : list string) : string :=
  match l with
  | [] => EmptyString
  | [x] => x
  | x :: r => x +:+ sep +:+ join sep r
  end.

(** Longest prefix of [s] whose characters satisfy [p], and the rest. *)
Fixpoint span (p : ascii -> bool) (s : string) : string * string :=
  match s with
  | EmptyString => (EmptyString, EmptyString)
  | String c r =>
      if p c then let '(a, b) := span p r in (String c a, b)
      else (EmptyString, s)
  end.

(** Truth value of an [Optional[str]]: neither [None] nor empty. *)
Definition truthy (o : option string) : bool :=
  match o with
  | Some s => negb (String.eqb s EmptyString)
  | None => false
  end.

Definition LF : ascii := "010".

End PyStr.

Import PyStr.

(** ** Data model of the graph ([dns_enumerator.py]) *)

Inductive node_type :=
  | Domain | Subdomain | IPv4 | IPv6 | MailServer | NameServer.

Record Node := {
  node_id : nat;
  node_type_of : node_type;
  node_value : string;
  node_label : string;
  node_txt_records : option string
}.

Inductive link_type :=
  | A_record | AAAA_record | MX_record | NS_record
  | CNAME_record | CNAME_alias | PTR_record | has_subdomain.

Record Link := {
  link_source : nat;
  link_target : nat;
  link_type_of : link_type
}.

(** The dict returned by [run_dns_enum]. *)
Record graph_data := {
  graph_nodes : list Node;
  graph_links : list Link
}.

#[global] Instance node_type_eq_dec : EqDecision node_type.
Proof. solve_decision. Defined.
#[global] Instance link_type_eq_dec : EqDecision link_type.
Proof. solve_decision. Defined.
#[global] Instance Node_eq_dec : EqDecision Node.
Proof. solve_decision. Defined.
#[global] Instance Link_eq_dec : EqDecision Link.
Proof. solve_decision. Defined.

(** ** The environment: upstream services and the request log *)

Inductive qtype := QA | QAAAA | QMX | QNS | QTXT | QCNAME | QSOA.

Inductive Request :=
  | DohQuery (name : string) (q : qtype)
  | CrtshQuery (domain : string)
  | ReverseLookup (ip : string)
  | TcpConnect (ip : string) (port : Z).

(** A DNS-over-HTTPS reply that parses is taken to be JSON of the schema of
    the service: the entries of [Answer] carry a string [name] and a string
    [data]. A crt.sh reply that parses is a JSON array of objects; the
    value of a key of such an object need not be a string. *)

(** The ways an HTTP exchange fails; each is caught where it is raised. *)
Inductive http_failure :=
  | RequestError | HTTPStatusError | JSONDecodeError | OtherException.

Record dns_answer := { ans_name : string; ans_data : string }.

(** A DNS-over-HTTPS reply: a failure, or the JSON body's [Answer] list
    (empty when the key is absent). *)
Inductive doh_reply :=
  | DohFailure (e : http_failure)
  | DohJson (answer : list dns_answer).

(** The value of a key of a JSON object: the key is absent, the value is a
    string, or it is another JSON value ([null], a number, a list, ...). *)
Inductive json_field :=
  | FieldAbsent
  | FieldString (s : string)
  | FieldOther.

(** One crt.sh certificate entry. *)
Record cert := {
  common_name : json_field;
  name_value : json_field
}.

Inductive crtsh_reply :=
  | CrtFailure (e : http_failure)
  | CrtJson (certs : list cert).

(** [socket.gethostbyaddr]: a host name, or [herror], [gaierror] or
    another exception. *)
Inductive rdns_reply :=
  | RdnsHost (hostname : string)
  | RdnsError.

(** Outcome of the body of the [try] in [check_single_port_python]. *)
Inductive connect_result :=
  | Connected
  | ConnectTimeout
  | ConnectionRefused
  | ConnectOSError
  | ConnectOther.

Record World := {
  doh : list Request -> string -> qtype -> doh_reply;
  crtsh : list Request -> string -> crtsh_reply;
  gethostbyaddr : list Request -> string -> rdns_reply;
  open_connection : string -> Z -> connect_result;
  (** order in which a Python [set] of strings is iterated *)
  set_order : gset string -> list string;
  (** whether a non-ASCII character, given by the bytes of its UTF-8
      encoding, is a decimal digit (category [Nd]) in the Unicode tables
      of the interpreter *)
  unicode_decimal : string -> bool
}.

(** A set is iterated once through each of its elements. *)
Definition set_order_ok (w : World) : Prop :=
  forall X : gset string, set_order w X ≡ₚ elements X.

(** Computations that talk to the network: they read and extend the log. *)
Definition Net (A : Type) : Type := list Request -> A * list Request.

#[global] Instance Net_ret : MRet Net := fun A a log => (a, log).
#[global] Instance Net_bind : MBind Net := fun A B f m log =>
  let '(a, log') := m log in f a log'.

Fixpoint net_map {A B : Type} (f : A -> Net B) (l : list A) : Net (list B) :=
  match l with
  | [] => mret []
  | x :: r => y ← f x; ys ← net_map f r; mret (y :: ys)
  end.

Definition doh_get (w : World) (name : string) (q : qtype) : Net doh_reply :=
  fun log => (doh w log name q, log ++ [DohQuery name q]).

Definition crtsh_get (w : World) (domain : string) : Net crtsh_reply :=
  fun log => (crtsh w log domain, log ++ [CrtshQuery domain]).

Definition socket_gethostbyaddr (w : World) (ip : string) : Net rdns_reply :=
  fun log => (gethostbyaddr w log ip, log ++ [ReverseLookup ip]).

Definition asyncio_open_connection (w : World) (ip : string) (port : Z)
  : Net connect_result :=
  fun log => (open_connection w ip port, log ++ [TcpConnect ip port]).

(** ** Domain Normalizer ([dns_enumerator.py], lines 20-46) *)

(** Simple wordlist for subdomain brute-forcing. *)
Definition COMMON_SUBDOMAINS : list string :=
  ["www"; "mail"; "ftp"; "blog"; "dev"; "test"; "admin"; "api"; "webmail";
   "secure"; "vpn"; "m"; "portal"; "shop"; "store"; "cpanel"; "autodiscover";
   "docs"; "support"; "help"; "app"; "dashboard"; "status"; "forum"; "news"].

Section Normalizer.

(** [idna.encode(domain).decode('ascii')] of the third-party [idna]
    package: the encoded text, or [None] when the call raises (both
    [except] clauses return [None]). *)
Variable idna_encode : string -> option string.

Definition normalizeDomainForDNS (domain : string) : option string :=
  if contains ".." domain then None
  else
    match idna_encode domain with
    | Some encoded =>
        let punycode_domain := lower encoded in
        if String.eqb punycode_domain EmptyString
           || contains ".." punycode_domain
           || startswith punycode_domain "-"
           || endswith punycode_domain "-"
        then None
        else Some punycode_domain
    | None => None
    end.

End Normalizer.

(** ** DNS Record Resolver (lines 48-91) *)

Record Records := {
  rec_A : list string;
  rec_AAAA : list string;
  rec_MX : list string;
  rec_NS : list string;
  rec_TXT : list string;
  rec_CNAME : list (string * string);   (* name, target *)
  rec_SOA : option string;
  rec_PTR : list string
}.

Definition empty_records : Records :=
  {| rec_A := []; rec_AAAA := []; rec_MX := []; rec_NS := []; rec_TXT := [];
     rec_CNAME := []; rec_SOA := None; rec_PTR := [] |}.

(** The body of [for answer in data["Answer"]] for one answer. *)
Definition store_answer (q_type : qtype) (answer : dns_answer) (records : Records)
  : Records :=
  let 'Build_Records a aaaa mx ns txt cname soa ptr := records in
  let data := ans_data answer in
  match q_type with
  | QSOA => Build_Records a aaaa mx ns txt cname (Some data) ptr
  | QCNAME =>
      Build_Records a aaaa mx ns txt (cname ++ [(ans_name answer, data)]) soa ptr
  | QA => Build_Records (a ++ [data]) aaaa mx ns txt cname soa ptr
  | QAAAA => Build_Records a (aaaa ++ [data]) mx ns txt cname soa ptr
  | QMX => Build_Records a aaaa (mx ++ [data]) ns txt cname soa ptr
  | QNS => Build_Records a aaaa mx (ns ++ [data]) txt cname soa ptr
  | QTXT => Build_Records a aaaa mx ns (txt ++ [data]) cname soa ptr
  end.

Definition query_types : list qtype := [QA; QAAAA; QMX; QNS; QTXT; QCNAME; QSOA].

(** One iteration of [for q_type in query_types]: a failed request leaves
    the records as they are. *)
Definition fetch_record_type (w : World) (domain : string) (records : Records)
    (q_type : qtype) : Net Records :=
  reply ← doh_get w domain q_type;
  match reply with
  | DohJson answers => mret (foldl (fun r a => store_answer q_type a r) records answers)
  | DohFailure _ => mret records
  end.

Fixpoint net_fold {A B : Type} (f : B -> A -> Net B) (l : list A) (b : B) : Net B :=
  match l with
  | [] => mret b
  | x :: r => b' ← f b x; net_fold f r b'
  end.

Definition get_dns_records (w : World) (domain : string) : Net Records :=
  net_fold (fetch_record_type w domain) query_types empty_records.

(** ** Subdomain discovery from crt.sh (lines 93-133) *)

(** The [if 'common_name' in cert] block. *)
Definition crt_common_name (domain cn : string) (subdomains : gset string)
  : gset string :=
  if endswith cn ("." +:+ domain) || String.eqb cn domain then
    if startswith cn "*." && negb (String.eqb cn domain)
    then {[ replace_star_dot (lower cn) ]} ∪ subdomains
    else {[ lower cn ]} ∪ subdomains
  else subdomains.

(** The body of [for name in names]. *)
Definition crt_name (domain name : string) (subdomains : gset string)
  : gset string :=
  let name := strip name in
  if startswith name "*." && endswith name ("." +:+ domain)
  then {[ replace_star_dot (lower name) ]} ∪ subdomains
  else if endswith name ("." +:+ domain) || String.eqb name domain
  then {[ lower name ]} ∪ subdomains
  else subdomains.

(** What a pass through the body of [for cert in certs] leaves: the set
    after the whole body, or the set at the point where the body raised. *)
Inductive body_result :=
  | Completed (subdomains : gset string)
  | Raised (subdomains : gset string).

(** The [if 'name_value' in cert] block. A value that is not a string has
    no [split]: the call raises [AttributeError]. *)
Definition crt_name_value (domain : string) (nv : json_field)
    (subdomains : gset string) : body_result :=
  match nv with
  | FieldString nv =>
      Completed (foldl (fun acc name => crt_name domain name acc) subdomains
                   (split LF nv))
  | FieldAbsent => Completed subdomains
  | FieldOther => Raised subdomains
  end.

(** The body of [for cert in certs]. A [common_name] that is not a string
    has no [endswith]: the call raises [AttributeError] before anything is
    added. *)
Definition crt_cert (domain : string) (c : cert) (subdomains : gset string)
  : body_result :=
  match common_name c with
  | FieldString cn =>
      crt_name_value domain (name_value c) (crt_common_name domain cn subdomains)
  | FieldAbsent => crt_name_value domain (name_value c) subdomains
  | FieldOther => Raised subdomains
  end.

(** [for cert in certs] inside the [try]: an exception ends the loop, and
    the [except Exception] clause leaves the set as it is at that point. *)
Fixpoint crt_certs (domain : string) (certs : list cert) (subdomains : gset string)
  : gset string :=
  match certs with
  | [] => subdomains
  | c :: r =>
      match crt_cert domain c subdomains with
      | Completed subdomains => crt_certs domain r subdomains
      | Raised subdomains => subdomains
      end
  end.

Definition discover_subdomains_crtsh (w : World) (domain : string)
  : Net (list string) :=
  reply ← crtsh_get w domain;
  let subdomains : gset string :=
    match reply with
    | CrtJson certs => crt_certs domain certs ∅
    | CrtFailure _ => ∅
    end in
  mret (set_order w subdomains).

(** ** Reverse Resolver (lines 135-148) *)

Definition perform_reverse_dns_lookup (w : World) (ip_address : string)
  : Net (option string) :=
  reply ← socket_gethostbyaddr w ip_address;
  match reply with
  | RdnsHost hostname => mret (Some hostname)
  | RdnsError => mret None
  end.

(** ** Name-to-IP Resolver and Port Scanner ([port_scanner.py]) *)

(** The number of bytes of the character whose first byte is [c]. *)
Definition utf8_width (c : ascii) : nat :=
  if code c <? 192 then 1 else if code c <? 224 then 2 else if code c <? 240 then 3 else 4.

(** The first [n] bytes of [s] and the text after them; [None] when [s]
    is shorter. *)
Fixpoint take_bytes (n : nat) (s : string) : option (string * string) :=
  match n with
  | 0 => Some (EmptyString, s)
  | S n' =>
      match s with
      | EmptyString => None
      | String c r => '(a, b) ← take_bytes n' r; Some (String c a, b)
      end
  end.

(** The class [\d] of a [str] pattern on one character: one of 0-9, or a
    non-ASCII decimal digit. *)
Definition is_decimal (w : World) (ch : string) : bool :=
  match ch with
  | String c EmptyString => isdigit c
  | _ => unicode_decimal w ch
  end.

(** [\d] at the head of [s]: the text after one decimal digit. *)
Definition re_digit (w : World) (s : string) : option string :=
  match s with
  | EmptyString => None
  | String c _ =>
      '(ch, rest) ← take_bytes (utf8_width c) s;
      if is_decimal w ch then Some rest else None
  end.

(** Up to [n] more [\d], as many as there are. *)
Fixpoint re_digits_upto (w : World) (n : nat) (s : string) : string :=
  match n with
  | 0 => s
  | S n' =>
      match re_digit w s with
      | Some r => re_digits_upto w n' r
      | None => s
      end
  end.

(** [\d{1,3}] at the head of [s]: the text after the digits. The group is
    greedy, and giving a digit back cannot help the match: what follows the
    group in the pattern, a dot or the end, does not match at a digit. *)
Definition re_digits_1_3 (w : World) (s : string) : option string :=
  r ← re_digit w s; Some (re_digits_upto w 2 r).

(** [\.] at the head of [s]. *)
Definition re_dot (s : string) : option string :=
  match s with
  | String c r => if Ascii.eqb c "." then Some r else None
  | EmptyString => None
  end.

(** [$] without [re.MULTILINE]: the end of the string, or just before a
    newline that ends the string. *)
Definition re_end (s : string) : bool :=
  String.eqb s EmptyString || String.eqb s (String LF EmptyString).

(** [bool(re.match(r'^\d{1,3}\.\d{1,3}\.\d{1,3}\.\d{1,3}$', ip))] *)
Definition is_valid_ipv4_address (w : World) (ip : string) : bool :=
  match
    r ← re_digits_1_3 w ip; r ← re_dot r;
    r ← re_digits_1_3 w r; r ← re_dot r;
    r ← re_digits_1_3 w r; r ← re_dot r;
    re_digits_1_3 w r
  with
  | Some rest => re_end rest
  | None => false
  end.

Definition resolve_domain_to_ip (w : World) (domain : string)
  : Net (option string) :=
  if is_valid_ipv4_address w domain then mret (Some domain)
  else
    dns_response ← doh_get w domain QA;
    match dns_response with
    | DohJson (first :: _) => mret (Some (ans_data first))
    | DohJson [] => mret None
    | DohFailure _ => mret None
    end.

Record PortCheck := { pc_port : Z; pc_open : bool }.

Definition check_single_port_python (w : World) (ip : string) (port : Z)
  : Net PortCheck :=
  r ← asyncio_open_connection w ip port;
  match r with
  | Connected => mret {| pc_port := port; pc_open := true |}
  | ConnectTimeout | ConnectionRefused | ConnectOSError =>
      mret {| pc_port := port; pc_open := false |}
  | ConnectOther => mret {| pc_port := port; pc_open := false |}
  end.

Definition common_ports : list Z :=
  [21; 22; 23; 25; 53; 80; 110; 143;
   443; 465; 587; 993; 995; 3306; 3389;
   8080; 8443]%Z.

Record Service := {
  svc_port : Z;
  svc_protocol : string;
  svc_service : string
}.

(** The [if]/[elif] chain of [local_port_check_python] for one open port. *)
Definition service_entry (port : Z) : Service :=
  let mk protocol service_name :=
    {| svc_port := port; svc_protocol := protocol; svc_service := service_name |} in
  if (port =? 21)%Z then mk "tcp" "ftp"
  else if (port =? 22)%Z then mk "tcp" "ssh"
  else if (port =? 23)%Z then mk "tcp" "telnet"
  else if (port =? 25)%Z then mk "tcp" "smtp"
  else if (port =? 53)%Z then mk "tcp" "dns"
  else if (port =? 80)%Z then mk "http" "http"
  else if (port =? 110)%Z then mk "tcp" "pop3"
  else if (port =? 143)%Z then mk "tcp" "imap"
  else if (port =? 443)%Z then mk "https" "https"
  else if (port =? 465)%Z then mk "ssl/tls" "smtps"
  else if (port =? 587)%Z then mk "smtp" "submission"
  else if (port =? 993)%Z then mk "ssl/tls" "imaps"
  else if (port =? 995)%Z then mk "ssl/tls" "pop3s"
  else if (port =? 3306)%Z then mk "tcp" "mysql"
  else if (port =? 3389)%Z then mk "tcp" "rdp"
  else if (port =? 8080)%Z then mk "http" "http-alt"
  else if (port =? 8443)%Z then mk "https" "https-alt"
  else mk "tcp" "unknown".

Record LocalScan := {
  scan_source : string;
  scan_ports : list Z;
  scan_services : list Service;
  scan_note : string
}.

(** [asyncio.gather] returns the results in the order of [common_ports]. *)
Definition local_port_check_python (w : World) (ip : string) : Net LocalScan :=
  results ← net_map (check_single_port_python w ip) common_ports;
  let open_ports := pc_port <$> filter (fun r => pc_open r = true) results in
  let services :=
    (fun r => service_entry (pc_port r)) <$> filter (fun r => pc_open r = true) results in
  mret {| scan_source := "local-check";
          scan_ports := open_ports;
          scan_services := services;
          scan_note := "Performed local check on common ports." |}.

Inductive ScanResponse :=
  | ScanError (error note : string)
  | ScanSuccess (target ip source : string) (ports : list Z)
      (services : list Service) (note : string).

Definition run_port_scan (w : World) (target : string) : Net ScanResponse :=
  let finish ip :=
    scan_result ← local_port_check_python w ip;
    mret (ScanSuccess target ip (scan_source scan_result) (scan_ports scan_result)
            (scan_services scan_result) (scan_note scan_result)) in
  if negb (is_valid_ipv4_address w target) then
    resolved_ip ← resolve_domain_to_ip w target;
    let failed :=
      mret (ScanError
              ("Could not resolve domain '" +:+ target +:+ "' to IP. Scan cannot proceed.")
              "DNS resolution failed.") in
    match resolved_ip with
    | Some ip => if String.eqb ip EmptyString then failed else finish ip
    | None => failed
    end
  else finish target.

(** ** Graph Orchestrator ([run_dns_enum], lines 150-301) *)

(** The locals [nodes], [links], [node_map], [next_node_id] of one call,
    together with the request log. *)
Record EnumState := {
  nodes : list Node;
  links : list Link;
  node_map : gmap string nat;
  next_node_id : nat;
  net_log : list Request
}.

Definition initial_state : EnumState :=
  {| nodes := []; links := []; node_map := ∅; next_node_id := 0; net_log := [] |}.

Inductive exn :=
  | NameError (name : string).

Inductive outcome (A : Type) :=
  | Return (a : A)
  | Raise (e : exn).
Arguments Return {A} a.
Arguments Raise {A} e.

(** The body of [run_dns_enum]: state passing, with exceptions that end
    the call. *)
Definition M (A : Type) : Type := EnumState -> outcome A * EnumState.

#[global] Instance M_ret : MRet M := fun A a st => (Return a, st).
#[global] Instance M_bind : MBind M := fun A B f m st =>
  match m st with
  | (Return a, st') => f a st'
  | (Raise e, st') => (Raise e, st')
  end.

Definition raise {A : Type} (e : exn) : M A := fun st => (Raise e, st).

(** An [await] of a network computation. *)
Definition await {A : Type} (c : Net A) : M A := fun st =>
  let '(a, log') := c (net_log st) in
  (Return a,
   {| nodes := nodes st; links := links st; node_map := node_map st;
      next_node_id := next_node_id st; net_log := log' |}).

(** [graph_data = {"nodes": nodes, "links": links}] *)
Definition graph_of_state : M graph_data := fun st =>
  (Return {| graph_nodes := nodes st; graph_links := links st |}, st).

(** [for x in l: body] *)
Fixpoint for_each {A : Type} (l : list A) (body : A -> M unit) : M unit :=
  match l with
  | [] => mret tt
  | x :: r => body x;; for_each r body
  end.

(** The module-level names of [dns_enumerator.py] that the file does not
    define itself. A name without a binding raises [NameError] when it is
    evaluated. *)
Record Globals := {
  run_port_scan_resolve_domain_to_ip : option (string -> Net (option string))
}.

(** The module as it stands in the repository: it imports [re], [asyncio],
    [httpx], [socket], [json], [idna] and [typing], and binds
    [run_port_scan_resolve_domain_to_ip] nowhere. *)
Definition module_globals : Globals :=
  {| run_port_scan_resolve_domain_to_ip := None |}.

(** The module with the name bound to the Name-to-IP Resolver of
    [port_scanner.py]. *)
Definition linked_globals (w : World) : Globals :=
  {| run_port_scan_resolve_domain_to_ip := Some (resolve_domain_to_ip w) |}.

Definition normalize_value (value : string) : string := strip (lower value).

(** [label or value] *)
Definition label_or (label : option string) (value : string) : string :=
  match label with
  | Some l => if String.eqb l EmptyString then value else l
  | None => value
  end.

Definition add_node (node_type : node_type) (value : string) (label : option string)
  : M nat := fun st =>
  let normalized_value := normalize_value value in
  match node_map st !! normalized_value with
  | None =>
      let node_id := next_node_id st in
      (Return node_id,
       {| nodes := nodes st ++
                   [{| node_id := node_id; node_type_of := node_type;
                       node_value := normalized_value;
                       node_label := label_or label value;
                       node_txt_records := None |}];
          links := links st;
          node_map := <[normalized_value := node_id]> (node_map st);
          next_node_id := next_node_id st + 1;
          net_log := net_log st |})
  | Some existing => (Return existing, st)
  end.

(** [links.append({"source": s, "target": t, "type": ty})] *)
Definition add_link (s t : nat) (ty : link_type) : M unit := fun st =>
  (Return tt,
   {| nodes := nodes st;
      links := links st ++ [{| link_source := s; link_target := t; link_type_of := ty |}];
      node_map := node_map st; next_node_id := next_node_id st;
      net_log := net_log st |}).

(** The loop of lines 235-239: the first node with the given id receives
    the attribute, then [break]. *)
Fixpoint set_txt_records (main_domain_id : nat) (txt_data : string) (l : list Node)
  : list Node :=
  match l with
  | [] => []
  | node :: r =>
      if node_id node =? main_domain_id
      then {| node_id := node_id node; node_type_of := node_type_of node;
              node_value := node_value node; node_label := node_label node;
              node_txt_records := Some txt_data |} :: r
      else node :: set_txt_records main_domain_id txt_data r
  end.

Definition attach_txt (main_domain_id : nat) (txt_data : string) : M unit := fun st =>
  (Return tt,
   {| nodes := set_txt_records main_domain_id txt_data (nodes st);
      links := links st; node_map := node_map st;
      next_node_id := next_node_id st; net_log := net_log st |}).

(** Group 1 of [re.match] on [mx_record] with the pattern: one or more
    [\d], one or more [\s], then a group of any characters but newline,
    as many as possible. [None] when there is no match. *)
Definition re_match_mx (mx_record : string) : option string :=
  let '(ds, r1) := span isdigit mx_record in
  if String.length ds =? 0 then None
  else
    let '(ws, r2) := span isspace r1 in
    if String.length ws =? 0 then None
    else Some (fst (span (fun c => negb (Ascii.eqb c LF)) r2)).

(** Lines 197-199. *)
Definition mx_hostname_of (mx_record : string) : string :=
  lower (match re_match_mx mx_record with
         | Some g => strip_chars "." g
         | None => strip_chars "." mx_record
         end).

(** [await asyncio.sleep(0.05)]: no effect on the state or the log. *)
Definition asyncio_sleep : M unit := mret tt.

Section Orchestrator.

Variable idna_encode : string -> option string.
Variable globals : Globals.
Variable w : World.

(** [await run_port_scan_resolve_domain_to_ip(name)] *)
Definition call_resolver (name : string) : M (option string) :=
  match run_port_scan_resolve_domain_to_ip globals with
  | Some f => await (f name)
  | None => raise (NameError "run_port_scan_resolve_domain_to_ip")
  end.

(** The reverse lookup that follows an address node (lines 185-189,
    209-213, 226-230, 287-291): [owner] is the name the address was found
    for. *)
Definition link_ptr (ip : string) (ip_id : nat) (owner : string) : M unit :=
  hostname ← await (perform_reverse_dns_lookup w ip);
  match hostname with
  | Some h =>
      if negb (String.eqb h EmptyString) && negb (String.eqb (lower h) owner) then
        hostname_id ← add_node Domain h None;
        add_link ip_id hostname_id PTR_record
      else mret tt
  | None => mret tt
  end.

(** Lines 181-189. *)
Definition a_records (domain : string) (main_domain_id : nat) (rs : Records) : M unit :=
  for_each (rec_A rs) (fun ip =>
    ip_id ← add_node IPv4 ip None;
    add_link main_domain_id ip_id A_record;;
    link_ptr ip ip_id domain).

(** Lines 191-194. *)
Definition aaaa_records (main_domain_id : nat) (rs : Records) : M unit :=
  for_each (rec_AAAA rs) (fun ip =>
    ip_id ← add_node IPv6 ip None;
    add_link main_domain_id ip_id AAAA_record).

(** Lines 204-213 and 221-230: resolve a server name and link its address. *)
Definition link_server_ip (hostname : string) (server_id : nat) : M unit :=
  server_ip ← call_resolver hostname;
  match server_ip with
  | Some ip =>
      if String.eqb ip EmptyString then mret tt
      else
        ip_id ← add_node IPv4 ip None;
        add_link server_id ip_id A_record;;
        link_ptr ip ip_id hostname
  | None => mret tt
  end.

(** Lines 196-213. *)
Definition mx_records (main_domain_id : nat) (rs : Records) : M unit :=
  for_each (rec_MX rs) (fun mx_record =>
    let mx_hostname := mx_hostname_of mx_record in
    mx_id ← add_node MailServer mx_hostname None;
    add_link main_domain_id mx_id MX_record;;
    link_server_ip mx_hostname mx_id).

(** Lines 216-230. *)
Definition ns_records (main_domain_id : nat) (rs : Records) : M unit :=
  for_each (rec_NS rs) (fun ns_record =>
    let ns_hostname := lower (strip_chars "." ns_record) in
    ns_id ← add_node NameServer ns_hostname None;
    add_link main_domain_id ns_id NS_record;;
    link_server_ip ns_hostname ns_id).

(** Lines 233-239. *)
Definition txt_records (main_domain_id : nat) (rs : Records) : M unit :=
  match rec_TXT rs with
  | [] => mret tt
  | _ :: _ => attach_txt main_domain_id (join (String LF EmptyString) (rec_TXT rs))
  end.

(** Lines 241-259. *)
Definition cname_records (domain : string) (main_domain_id : nat) (rs : Records)
  : M unit :=
  for_each (rec_CNAME rs) (fun cname_entry =>
    let cname_name := lower (strip_chars "." (fst cname_entry)) in
    let cname_target := lower (strip_chars "." (snd cname_entry)) in
    cname_origin_id ← add_node Domain cname_name None;
    cname_target_id ← add_node Domain cname_target None;
    add_link cname_origin_id cname_target_id CNAME_record;;
    (if String.eqb cname_name domain
     then add_link main_domain_id cname_origin_id CNAME_alias
     else mret tt);;
    cname_target_ip ← call_resolver cname_target;
    match cname_target_ip with
    | Some ip =>
        if String.eqb ip EmptyString then mret tt
        else
          cname_target_ip_id ← add_node IPv4 ip None;
          add_link cname_target_id cname_target_ip_id A_record
    | None => mret tt
    end).

(** Lines 265-268: the wordlist candidates that the Normalizer accepts. *)
Definition wordlist_subdomains (domain : string) : gset string :=
  foldl (fun discovered sub =>
           let full_subdomain := sub +:+ "." +:+ domain in
           if truthy (normalizeDomainForDNS idna_encode full_subdomain)
           then {[ full_subdomain ]} ∪ discovered
           else discovered)
        ∅ COMMON_SUBDOMAINS.

(** Lines 271-274. *)
Definition add_crtsh_subdomains (domain : string) (crtsh_subdomains : list string)
    (discovered : gset string) : gset string :=
  foldl (fun discovered sub =>
           if negb (String.eqb sub domain)
              && truthy (normalizeDomainForDNS idna_encode sub)
           then {[ sub ]} ∪ discovered
           else discovered)
        discovered crtsh_subdomains.

(** Lines 277-293: the body of [for subdomain in discovered_subdomains]. *)
Definition subdomain_step (domain : string) (main_domain_id : nat)
    (subdomain : string) : M unit :=
  if negb (String.eqb subdomain domain) then
    subdomain_id ← add_node Subdomain subdomain None;
    add_link main_domain_id subdomain_id has_subdomain;;
    link_server_ip subdomain subdomain_id;;
    asyncio_sleep
  else mret tt.

(** Lines 276-293. *)
Definition subdomain_nodes (domain : string) (main_domain_id : nat)
    (discovered_subdomains : gset string) : M unit :=
  for_each (set_order w discovered_subdomains) (subdomain_step domain main_domain_id).

Definition run_dns_enum_body (domain : string) : M graph_data :=
  let domain := strip (lower domain) in
  main_domain_id ← add_node Domain domain (Some domain);
  main_dns_records ← await (get_dns_records w domain);
  a_records domain main_domain_id main_dns_records;;
  aaaa_records main_domain_id main_dns_records;;
  mx_records main_domain_id main_dns_records;;
  ns_records main_domain_id main_dns_records;;
  txt_records main_domain_id main_dns_records;;
  cname_records domain main_domain_id main_dns_records;;
  let discovered_subdomains := wordlist_subdomains domain in
  crtsh_subdomains ← await (discover_subdomains_crtsh w domain);
  let discovered_subdomains :=
    add_crtsh_subdomains domain crtsh_subdomains discovered_subdomains in
  subdomain_nodes domain main_domain_id discovered_subdomains;;
  graph_of_state.

(** A call of [run_dns_enum]: what it returns or raises, and the requests
    it issued. *)
Definition run_dns_enum (domain : string) : outcome graph_data * list Request :=
  let '(r, st) := run_dns_enum_body domain initial_state in (r, net_log st).

End Orchestrator.

(** ** Sample environments *)

(** A part of the Unicode tables: the Arabic-Indic digits U+0660 to
    U+0669, whose encodings are the byte 217 followed by 160 to 169. *)
Definition arabic_indic_digit (ch : string) : bool :=
  match ch with
  | String c1 (String c2 EmptyString) =>
      (code c1 =? 217) && (160 <=? code c2) && (code c2 <=? 169)
  | _ => false
  end.

(** A stand-in for [idna.encode] on names made of ASCII letters, digits,
    hyphens and dots: such a name is returned as it is; any other input is
    refused. *)
Definition ldh_char (c : ascii) : bool :=
  isdigit c || isupper c || isupper (ascii_of_nat (code c - 32))
  || Ascii.eqb c "-" || Ascii.eqb c ".".

Fixpoint all_chars (p : ascii -> bool) (s : string) : bool :=
  match s with
  | EmptyString => true
  | String c r => p c && all_chars p r
  end.

Definition idna_ldh (s : string) : option string :=
  if all_chars ldh_char s && negb (String.eqb s EmptyString) && negb (startswith s ".")
  then Some s else None.

Definition example_ip : string := "93.184.216.34".

(** The upstream of the end-to-end scenario: DoH knows one [A] record for
    example.com and nothing else, crt.sh has no certificate, reverse DNS
    fails, no port is open. *)
Definition example_world : World :=
  {| doh := fun _ name q =>
       match q with
       | QA => if String.eqb name "example.com"
               then DohJson [{| ans_name := "example.com"; ans_data := example_ip |}]
               else DohJson []
       | _ => DohJson []
       end;
     crtsh := fun _ _ => CrtJson [];
     gethostbyaddr := fun _ _ => RdnsError;
     open_connection := fun _ _ => ConnectionRefused;
     set_order := elements;
     unicode_decimal := arabic_indic_digit |}.

(** Every upstream lookup fails. *)
Definition dead_world : World :=
  {| doh := fun _ _ _ => DohFailure RequestError;
     crtsh := fun _ _ => CrtFailure RequestError;
     gethostbyaddr := fun _ _ => RdnsError;
     open_connection := fun _ _ => ConnectTimeout;
     set_order := elements;
     unicode_decimal := arabic_indic_digit |}.

(** A host on which exactly ports 80 and 443 accept a connection. *)
Definition web_world : World :=
  {| doh := fun _ _ _ => DohJson [];
     crtsh := fun _ _ => CrtJson [];
     gethostbyaddr := fun _ _ => RdnsError;
     open_connection := fun _ port =>
       if (port =? 80)%Z || (port =? 443)%Z then Connected else ConnectionRefused;
     set_order := elements;
     unicode_decimal := arabic_indic_digit |}.

(** ** Notions used to state the properties *)

(** One to three decimal digits. *)
Definition octet_syntax (s : string) : Prop :=
  all_chars isdigit s = true /\ 1 <= String.length s <= 3.

(** IPv4 dotted-quad syntax: four groups of one to three digits separated
    by dots. *)
Definition dotted_quad (s : string) : Prop :=
  exists a b c d,
    s = a +:+ "." +:+ b +:+ "." +:+ c +:+ "." +:+ d
    /\ octet_syntax a /\ octet_syntax b /\ octet_syntax c /\ octet_syntax d.

(** All the bytes of [s] are ASCII characters. *)
Definition is_ascii (s : string) : bool := all_chars (fun c => code c <? 128) s.

(** [ch] is one character, and the class [\d] holds of it. *)
Definition decimal_char (w : World) (ch : string) : Prop :=
  match ch with
  | EmptyString => False
  | String c _ => String.length ch = utf8_width c /\ is_decimal w ch = true
  end.

(** One to three decimal digits, ASCII or not. *)
Definition digit_group (w : World) (g : string) : Prop :=
  exists ds : list string,
    g = foldr String.append EmptyString ds
    /\ 1 <= length ds <= 3 /\ Forall (decimal_char w) ds.

(** Four groups of one to three decimal digits separated by dots. *)
Definition digit_quad (w : World) (s : string) : Prop :=
  exists a b c d,
    s = a +:+ "." +:+ b +:+ "." +:+ c +:+ "." +:+ d
    /\ digit_group w a /\ digit_group w b /\ digit_group w c /\ digit_group w d.

(** What the pattern of [is_valid_ipv4_address] describes: four groups of
    digits separated by dots, with or without one final newline. *)
Definition ipv4_pattern (w : World) (s : string) : Prop :=
  digit_quad w s \/ exists q, digit_quad w q /\ s = q +:+ String LF EmptyString.


(** Value of a string of decimal digits. *)
Definition decimal_value (s : string) : nat :=
  foldl (fun acc c => 10 * acc + (code c - 48)) 0 (String.list_ascii_of_string s).

(** The numbers between the dots of [s]. *)
Definition octet_values (s : string) : list nat :=
  decimal_value <$> split "." s.

(** [name] equals [root] or ends with a dot followed by [root]. *)
Definition under_root (root name : string) : Prop :=
  name = root \/ exists pre, name = pre +:+ "." +:+ root.

(** The names a certificate entry carries: its [common_name], and the
    trimmed lines of its [name_value]. *)
Definition cert_names (c : cert) : list string :=
  match common_name c with FieldString cn => [cn] | _ => [] end ++
  match name_value c with FieldString nv => strip <$> split LF nv | _ => [] end.

(** Each field of the entry that is present is a string. *)
Definition cert_typed (c : cert) : Prop :=
  common_name c <> FieldOther /\ name_value c <> FieldOther.

(** The part of a reply that [discover_subdomains_crtsh] reads: the entries
    before the first field that is not a string, and, when that field is a
    [name_value], the [common_name] of its entry. *)
Fixpoint certs_read (certs : list cert) : list cert :=
  match certs with
  | [] => []
  | c :: r =>
      match common_name c, name_value c with
      | FieldOther, _ => []
      | cn, FieldOther => [{| common_name := cn; name_value := FieldAbsent |}]
      | _, _ => c :: certs_read r
      end
  end.

(** What [discover_subdomains_crtsh] records for an accepted name. *)
Definition folded (root name : string) : string :=
  if startswith name "*." && negb (String.eqb name root)
  then replace_star_dot (lower name)
  else lower name.

(** The contract of [idna.encode] that idempotence of the Normalizer
    rests on: the lower-cased form of an encoded name is encoded to
    itself. *)
Definition idna_stable (idna_encode : string -> option string) : Prop :=
  forall d a, idna_encode d = Some a -> idna_encode (lower a) = Some (lower a).

(** [is_open r]: the probe established the connection. *)
Definition is_open (r : connect_result) : bool :=
  match r with Connected => true | _ => false end.

(** ** Reasoning about the body of [run_dns_enum] *)

(** [wp m Q E st]: run from [st], [m] either returns a value and a state
    that satisfy [Q], or raises an exception that satisfies [E]. *)
Definition wp {A : Type} (m : M A) (Q : A -> EnumState -> Prop)
    (E : exn -> EnumState -> Prop) (st : EnumState) : Prop :=
  match m st with
  | (Return a, st') => Q a st'
  | (Raise e, st') => E e st'
  end.

(** The invariant that ties the four locals together. *)
Record graph_inv (st : EnumState) : Prop := {
  inv_next : next_node_id st = length (nodes st);
  inv_ids : forall i n, nodes st !! i = Some n -> node_id n = i;
  inv_map : forall v i,
    node_map st !! v = Some i <-> exists n, nodes st !! i = Some n /\ node_value n = v;
  inv_links : forall l, l ∈ links st ->
    link_source l < length (nodes st) /\ link_target l < length (nodes st)
}.

(** The first node is the root domain node for [d]. *)
Definition root_at (d : string) (st : EnumState) : Prop :=
  exists n, nodes st !! 0 = Some n
    /\ node_id n = 0 /\ node_type_of n = Domain
    /\ node_value n = d /\ node_label n = d.

(** The invariant, the root node, and a list of ids known to denote
    nodes. *)
Definition state_ok (d : string) (ids : list nat) (st : EnumState) : Prop :=
  graph_inv st /\ root_at d st /\ forall i, i ∈ ids -> i < length (nodes st).

(** Two nodes that differ at most in their [txt_records]. *)
Definition same_identity (n n' : Node) : Prop :=
  node_id n = node_id n' /\ node_type_of n = node_type_of n'
  /\ node_value n = node_value n' /\ node_label n = node_label n'.

(** The properties of a returned graph. *)
Definition ids_sequential (g : graph_data) : Prop :=
  node_id <$> graph_nodes g = seq 0 (length (graph_nodes g)).

Definition links_closed (g : graph_data) : Prop :=
  forall l, l ∈ graph_links g ->
    (exists n, n ∈ graph_nodes g /\ node_id n = link_source l)
    /\ (exists n, n ∈ graph_nodes g /\ node_id n = link_target l).

(** The calls of [run_port_scan_resolve_domain_to_ip] cannot fail with
    [NameError], or the exception is allowed by [E]. *)
Definition resolver_allowed (globals : Globals) (E : exn -> EnumState -> Prop) : Prop :=
  run_port_scan_resolve_domain_to_ip globals = None -> forall e st, E e st.

(** A sequence of node observations, each an [add_node] call. *)
Definition observe (st : EnumState) (o : node_type * string * option string)
  : EnumState :=
  snd (add_node o.1.1 o.1.2 o.2 st).

Definition observe_all (obs : list (node_type * string * option string))
  : EnumState :=
  foldl observe initial_state obs.

(** The answers of a DoH reply; a failed request has none. *)
Definition answers_of (r : doh_reply) : list dns_answer :=
  match r with DohJson answers => answers | DohFailure _ => [] end.

(** The certificates of a crt.sh reply; a failed request has none. *)
Definition certs_of (r : crtsh_reply) : list cert :=
  match r with CrtJson certs => certs | CrtFailure _ => [] end.

(** The test both branches of the crt.sh loop apply to a name. *)
Definition crt_accepts (domain name : string) : bool :=
  endswith name ("." +:+ domain) || String.eqb name domain.

(** The set after the names of a list have been through the test, each
    accepted name recorded in its folded form. *)
Definition record_names (domain : string) (names : list string)
    (subdomains : gset string) : gset string :=
  foldl (fun acc name =>
           if crt_accepts domain name then {[ folded domain name ]} ∪ acc else acc)
        subdomains names.

(** The wordlist candidates for a root domain. *)
Definition wordlist_candidates (domain : string) : list string :=
  (fun sub => sub +:+ "." +:+ domain) <$> COMMON_SUBDOMAINS.

Definition subdomain_node (id : nat) (name : string) : Node :=
  {| node_id := id; node_type_of := Subdomain; node_value := name;
     node_label := name; node_txt_records := None |}.

Definition subdomain_link (main_domain_id id : nat) : Link :=
  {| link_source := main_domain_id; link_target := id; link_type_of := has_subdomain |}.

(** crt.sh returns a certificate with upper-case names and a wildcard. *)
Definition mixed_case_cert : cert :=
  {| common_name := FieldString "WWW.EXAMPLE.COM";
     name_value :=
       FieldString ("MAIL.example.com" +:+ String LF "*.dev.example.com") |}.

(** An entry whose [common_name] is [null], followed by an entry for
    www.example.com. *)
Definition null_name_cert : cert :=
  {| common_name := FieldOther; name_value := FieldAbsent |}.

Definition www_cert : cert :=
  {| common_name := FieldString "www.example.com"; name_value := FieldAbsent |}.

Definition null_name_world : World :=
  {| doh := fun _ _ _ => DohJson [];
     crtsh := fun _ _ => CrtJson [null_name_cert; www_cert];
     gethostbyaddr := fun _ _ => RdnsError;
     open_connection := fun _ _ => ConnectionRefused;
     set_order := elements;
     unicode_decimal := arabic_indic_digit |}.

Definition mixed_case_world : World :=
  {| doh := fun _ _ _ => DohJson [];
     crtsh := fun _ _ => CrtJson [mixed_case_cert];
     gethostbyaddr := fun _ _ => RdnsError;
     open_connection := fun _ _ => ConnectionRefused;
     set_order := elements;
     unicode_decimal := arabic_indic_digit |}.

(** A reverse lookup that brings no name other than [owner]. *)
Definition no_other_name (owner : string) (r : rdns_reply) : Prop :=
  match r with
  | RdnsError => True
  | RdnsHost h => h = EmptyString \/ lower h = owner
  end.

(** The two nodes and the link that the single A record produces. *)
Definition example_root_node : Node :=
  {| node_id := 0; node_type_of := Domain; node_value := "example.com";
     node_label := "example.com"; node_txt_records := None |}.

Definition example_ip_node : Node :=
  {| node_id := 1; node_type_of := IPv4; node_value := example_ip;
     node_label := example_ip; node_txt_records := None |}.

Definition example_a_link : Link :=
  {| link_source := 0; link_target := 1; link_type_of := A_record |}.

(** A candidate name that is already in normal form, passes the checks of
    the Normalizer once encoded to itself, and differs from the root [d]
    and from the address [ip]. *)
Definition candidate_ok (d ip c : string) : bool :=
  String.eqb (lower c) c && String.eqb (normalize_value c) c
  && negb (contains ".." c) && negb (String.eqb c EmptyString)
  && negb (startswith c "-") && negb (endswith c "-")
  && negb (String.eqb c d) && negb (String.eqb c ip).

(** ** Notions used to state further properties of the two modules *)

(** The [data] fields of the answers of a reply. *)
Definition data_of (r : doh_reply) : list string := ans_data <$> answers_of r.

(** The request log after the first [k] lookups of [get_dns_records]. *)
Definition dns_log (log : list Request) (domain : string) (k : nat) : list Request :=
  log ++ (DohQuery domain <$> take k query_types).

#[global] Instance connect_result_eq_dec : EqDecision connect_result.
Proof. solve_decision. Defined.

(** The ports of [common_ports] that accept a connection, in table order. *)
Definition open_ports_of (w : World) (ip : string) : list Z :=
  filter (fun p => open_connection w ip p = Connected) common_ports.

(** The message of the error result of [run_port_scan]. *)
Definition resolve_error (target : string) : string :=
  "Could not resolve domain '" +:+ target +:+ "' to IP. Scan cannot proceed.".

(** The part of [run_dns_enum] that follows the fetch of the records
    (lines 181-301), for the root id and the records at hand. *)
Definition enum_from_records (idna_encode : string -> option string)
    (globals : Globals) (w : World) (domain : string) (main_domain_id : nat)
    (main_dns_records : Records) : M graph_data :=
  a_records w domain main_domain_id main_dns_records;;
  aaaa_records main_domain_id main_dns_records;;
  mx_records globals w main_domain_id main_dns_records;;
  ns_records globals w main_domain_id main_dns_records;;
  txt_records main_domain_id main_dns_records;;
  cname_records globals domain main_domain_id main_dns_records;;
  crtsh_subdomains ← await (discover_subdomains_crtsh w domain);
  subdomain_nodes globals w domain main_domain_id
    (add_crtsh_subdomains idna_encode domain crtsh_subdomains
       (wordlist_subdomains idna_encode domain));;
  graph_of_state.

(** The root domain node for the normalized root [d]. *)
Definition root_node (d : string) : Node :=
  {| node_id := 0; node_type_of := Domain; node_value := d; node_label := d;
     node_txt_records := None |}.

(** The state in which the records of the root have just been fetched. *)
Definition state_after_fetch (w : World) (d : string) : EnumState :=
  {| nodes := [root_node d]; links := []; node_map := {[ d := 0 ]};
     next_node_id := 1; net_log := snd (get_dns_records w d []) |}.

(** What the steps of the traversal keep of an invariant [I]: observing a
    node without a label, appending a link that [OK] admits, a reverse
    lookup, a call of the resolver. *)
Definition stage_rules (globals : Globals) (w : World) (I : EnumState -> Prop)
    (E : exn -> EnumState -> Prop) (OK : nat -> link_type -> Prop) : Prop :=
  (forall t v st, I st -> wp (add_node t v None) (fun _ => I) E st)
  /\ (forall s t ty st, OK s ty -> I st -> wp (add_link s t ty) (fun _ => I) E st)
  /\ (forall ip st, I st ->
        wp (await (perform_reverse_dns_lookup w ip)) (fun _ => I) E st)
  /\ (forall name st, I st -> wp (call_resolver globals name) (fun _ => I) E st).

(** The links the traversal appends: any link from the root, and A, PTR
    and CNAME record links from any node. *)
Definition link_policy (OK : nat -> link_type -> Prop) (main : nat) : Prop :=
  (forall ty, OK main ty)
  /\ forall s, OK s A_record /\ OK s PTR_record /\ OK s CNAME_record.

(** An invariant that does not read the request log. *)
Definition log_independent (I : EnumState -> Prop) : Prop :=
  forall st log',
    I st ->
    I {| nodes := nodes st; links := links st; node_map := node_map st;
         next_node_id := next_node_id st; net_log := log' |}.

(** The first node has id 0 and carries [t] as its TXT attribute; no other
    node carries one. *)
Definition txt_state (t : option string) (st : EnumState) : Prop :=
  exists root rest,
    nodes st = root :: rest /\ node_id root = 0 /\ node_txt_records root = t
    /\ Forall (fun n => node_txt_records n = None) rest.

(** The TXT attribute that the records call for. *)
Definition txt_of (rs : Records) : option string :=
  match rec_TXT rs with
  | [] => None
  | _ :: _ => Some (join (String LF EmptyString) (rec_TXT rs))
  end.

(** The link types that only the root issues. *)
Definition root_link (ty : link_type) : bool :=
  match ty with
  | AAAA_record | MX_record | NS_record | CNAME_alias | has_subdomain => true
  | A_record | CNAME_record | PTR_record => false
  end.

Definition links_rooted (main : nat) (st : EnumState) : Prop :=
  forall l, l ∈ links st -> root_link (link_type_of l) = true -> link_source l = main.

(** Values are in normal form and each label normalizes to its value. *)
Definition node_normal (n : Node) : Prop :=
  normalize_value (node_value n) = node_value n
  /\ normalize_value (node_label n) = node_value n.

Definition nodes_normal (st : EnumState) : Prop := Forall node_normal (nodes st).

Definition is_tcp (r : Request) : bool :=
  match r with TcpConnect _ _ => true | _ => false end.

(** The log starts with [p], and no TCP probe has been issued since. *)
Definition log_from (p : list Request) (st : EnumState) : Prop :=
  exists rest, net_log st = p ++ rest /\ Forall (fun r => is_tcp r = false) rest.

(** The exception of a call of the unbound resolver name. *)
Definition unbound_resolver (e : exn) : Prop :=
  e = NameError "run_port_scan_resolve_domain_to_ip".

(** An upstream that knows two TXT records for every name and nothing
    else. *)
Definition txt_world : World :=
  {| doh := fun _ name q =>
       match q with
       | QTXT => DohJson [{| ans_name := name; ans_data := "v=spf1 -all" |};
                          {| ans_name := name; ans_data := "site-verification=abc" |}]
       | _ => DohJson []
       end;
     crtsh := fun _ _ => CrtJson [];
     gethostbyaddr := fun _ _ => RdnsError;
     open_connection := fun _ _ => ConnectionRefused;
     set_order := elements;
     unicode_decimal := arabic_indic_digit |}.

(** The requests of a call of [run_dns_enum] on the normalized root [d]:
    the seven lookups of the root first, and no TCP probe at all. *)
Definition enum_requests (d : string) (log : list Request) : Prop :=
  exists rest,
    log = dns_log [] d 7 ++ rest /\ Forall (fun r => is_tcp r = false) rest.

(** ** Properties of the string methods *)

Section PyStrFacts.

Lemma append_nil_r (s : string) : s +:+ EmptyString = s.
Proof. induction s as [|c s IH]; simpl; [done | by rewrite IH]. Qed.

Lemma append_assoc (a b c : string) : (a +:+ b) +:+ c = a +:+ b +:+ c.
Proof. induction a as [|x a IH]; simpl; [done | by rewrite IH]. Qed.

Lemma startswith_spec (s pre : string) :
  startswith s pre = true <-> exists r, s = pre +:+ r.
Proof.
  revert s. induction pre as [|a pre IH]; intros s; simpl.
  - split; [intros _; exists s; reflexivity | done].
  - destruct s as [|b s].
    + split; [done | intros [r Hr]; done].
    + destruct (Ascii.eqb_spec a b) as [->|Hne].
      * rewrite IH. split; intros [r Hr]; exists r; [by rewrite Hr | by injection Hr].
      * split; [done | intros [r Hr]; injection Hr; intros; congruence].
Qed.

Lemma contains_spec (needle hay : string) :
  contains needle hay = true <-> exists a b, hay = a +:+ needle +:+ b.
Proof.
  induction hay as [|c hay IH].
  - simpl. rewrite orb_false_r, startswith_spec. split.
    + intros [r Hr]. exists EmptyString, r. by simpl.
    + intros [a [b Hab]]. destruct a; simpl in Hab; [by exists b | done].
  - cbn [contains]. rewrite orb_true_iff, IH, startswith_spec. split.
    + intros [[r Hr]|[a [b Hab]]].
      * exists EmptyString, r. by simpl.
      * exists (String c a), b. simpl. by rewrite Hab.
    + intros [a [b Hab]]. destruct a as [|x a]; simpl in Hab.
      * left. by exists b.
      * right. injection Hab as _ Hab. by exists a, b.
Qed.

Lemma endswith_spec (s suf : string) :
  endswith s suf = true <-> exists a, s = a +:+ suf.
Proof.
  induction s as [|c s IH].
  - cbn [endswith]. rewrite orb_false_r, String.eqb_eq. split.
    + intros <-. exists EmptyString. by simpl.
    + intros [a Ha]. destruct a; simpl in Ha; done.
  - cbn [endswith]. rewrite orb_true_iff, IH, String.eqb_eq. split.
    + intros [<-|[a Ha]]; [exists EmptyString; by simpl |].
      exists (String c a). simpl. by rewrite Ha.
    + intros [a Ha]. destruct a as [|x a]; simpl in Ha; [by left |].
      right. injection Ha as _ Ha. by exists a.
Qed.

Lemma isupper_lower_char (c : ascii) : isupper (lower_char c) = false.
Proof. destruct c as [[] [] [] [] [] [] [] []]; reflexivity. Qed.

Lemma lower_char_idem (c : ascii) : lower_char (lower_char c) = lower_char c.
Proof. unfold lower_char at 1. by rewrite isupper_lower_char. Qed.

Lemma lower_idem (s : string) : lower (lower s) = lower s.
Proof. induction s as [|c s IH]; simpl; [done | by rewrite lower_char_idem, IH]. Qed.

Lemma lower_no_upper (s : string) :
  all_chars (fun c => negb (isupper c)) (lower s) = true.
Proof. induction s as [|c s IH]; simpl; [done | by rewrite isupper_lower_char, IH]. Qed.

Lemma isspace_lower_char (c : ascii) : isspace (lower_char c) = isspace c.
Proof. destruct c as [[] [] [] [] [] [] [] []]; reflexivity. Qed.

Lemma lower_lstrip (s : string) : lower (lstrip_by isspace s) = lstrip_by isspace (lower s).
Proof.
  induction s as [|c s IH]; simpl; [done |].
  rewrite isspace_lower_char. by destruct (isspace c).
Qed.

Lemma lower_rstrip (s : string) : lower (rstrip_by isspace s) = rstrip_by isspace (lower s).
Proof.
  induction s as [|c s IH]; simpl; [done |].
  rewrite <- IH, isspace_lower_char.
  destruct (rstrip_by isspace s); simpl; [by destruct (isspace c) | done].
Qed.

Lemma lower_strip (s : string) : lower (strip s) = strip (lower s).
Proof. unfold strip, strip_by. by rewrite lower_rstrip, lower_lstrip. Qed.

Lemma rstrip_idem p (s : string) : rstrip_by p (rstrip_by p s) = rstrip_by p s.
Proof.
  induction s as [|c s IH]; simpl; [done |].
  destruct (rstrip_by p s) as [|d r] eqn:E.
  - destruct (p c) eqn:Ec; simpl; [done | by rewrite Ec].
  - cbn [rstrip_by]. cbn [rstrip_by] in IH. by rewrite IH.
Qed.

(** What [rstrip_by] returns starts with the same character as its
    argument, or is empty. *)
Lemma rstrip_head p (c : ascii) (s : string) :
  rstrip_by p (String c s) = EmptyString \/ exists r, rstrip_by p (String c s) = String c r.
Proof. simpl. destruct (rstrip_by p s); [destruct (p c)|]; eauto. Qed.

Lemma lstrip_length p (s : string) :
  String.length (lstrip_by p s) <= String.length s.
Proof. induction s as [|c s IH]; simpl; [done |]. destruct (p c); simpl; lia. Qed.

Lemma lstrip_rstrip_fixed p (s : string) :
  lstrip_by p s = s -> lstrip_by p (rstrip_by p s) = rstrip_by p s.
Proof.
  destruct s as [|c s]; [done |]. intros H.
  assert (p c = false) as Hc.
  { simpl in H. destruct (p c) eqn:E; [|done].
    pose proof (lstrip_length p s) as Hlen. rewrite H in Hlen. simpl in Hlen. lia. }
  destruct (rstrip_head p c s) as [->|[r ->]]; [done |]. simpl. by rewrite Hc.
Qed.

Lemma lstrip_idem p (s : string) : lstrip_by p (lstrip_by p s) = lstrip_by p s.
Proof.
  induction s as [|c s IH]; simpl; [done |].
  destruct (p c) eqn:E; [done |]. simpl. by rewrite E.
Qed.

Lemma strip_idem (s : string) : strip (strip s) = strip s.
Proof.
  unfold strip, strip_by.
  rewrite (lstrip_rstrip_fixed _ _ (lstrip_idem isspace s)). apply rstrip_idem.
Qed.

End PyStrFacts.

(** ** Domain Normalizer *)

Section NormalizerFacts.

Variable idna_encode : string -> option string.

Lemma normalizeDomainForDNS_Some (domain out : string) :
  normalizeDomainForDNS idna_encode domain = Some out ->
  exists a, idna_encode domain = Some a /\ out = lower a
    /\ contains ".." out = false /\ String.eqb out EmptyString = false
    /\ startswith out "-" = false /\ endswith out "-" = false.
Proof.
  unfold normalizeDomainForDNS.
  destruct (contains ".." domain); [done |].
  destruct (idna_encode domain) as [a|]; [|done].
  destruct (String.eqb (lower a) EmptyString) eqn:E1; [done |].
  destruct (contains ".." (lower a)) eqn:E2; [done |].
  destruct (startswith (lower a) "-") eqn:E3; [done |].
  destruct (endswith (lower a) "-") eqn:E4; [done |].
  cbn [orb]. intros [= <-]. by exists a.
Qed.

(** C4. An input that contains two consecutive dots is rejected: the
    Normalizer returns [None] for it, whatever [idna.encode] would make of
    the string. *)
Theorem normalizeDomainForDNS_rejects_double_dot (domain : string) :
  (exists pre post, domain = pre +:+ ".." +:+ post) ->
  normalizeDomainForDNS idna_encode domain = None.
Proof.
  intros H. apply contains_spec in H.
  unfold normalizeDomainForDNS. by rewrite H.
Qed.

(** C5. An accepted output is entirely lower-case, and, provided
    [idna.encode] maps the lower-cased form of its own output to itself,
    normalizing the output again returns the same string. *)
Theorem normalizeDomainForDNS_lower_idempotent (domain out : string) :
  idna_stable idna_encode ->
  normalizeDomainForDNS idna_encode domain = Some out ->
  lower out = out
  /\ all_chars (fun c => negb (isupper c)) out = true
  /\ normalizeDomainForDNS idna_encode out = Some out.
Proof.
  intros Hstable H.
  destruct (normalizeDomainForDNS_Some _ _ H) as (a & Ha & -> & E2 & E1 & E3 & E4).
  split; [apply lower_idem |]. split; [apply lower_no_upper |].
  unfold normalizeDomainForDNS.
  rewrite E2, (Hstable _ _ Ha), lower_idem, E1, E2, E3, E4. done.
Qed.

End NormalizerFacts.

(** The stand-in encoder honours the contract. *)
Lemma ldh_char_lower (c : ascii) : ldh_char (lower_char c) = ldh_char c.
Proof. destruct c as [[] [] [] [] [] [] [] []]; reflexivity. Qed.

Lemma lower_char_dot (c : ascii) : Ascii.eqb "." (lower_char c) = Ascii.eqb "." c.
Proof. destruct c as [[] [] [] [] [] [] [] []]; reflexivity. Qed.

Lemma idna_ldh_stable : idna_stable idna_ldh.
Proof.
  intros d a. unfold idna_ldh.
  destruct (all_chars ldh_char d && negb (String.eqb d EmptyString) && negb (startswith d "."))
    eqn:E; [|done].
  intros [= <-].
  apply andb_true_iff in E as [E E3]. apply andb_true_iff in E as [E1 E2].
  assert (all_chars ldh_char (lower d) = true) as ->.
  { clear E2 E3. induction d as [|c d IH]; simpl in *; [done |].
    apply andb_true_iff in E1 as [Hc Hd]. by rewrite ldh_char_lower, Hc, IH. }
  assert (String.eqb (lower d) EmptyString = false) as ->.
  { destruct d; simpl in *; done. }
  assert (startswith (lower d) "." = false) as ->.
  { destruct d as [|c d]; [done |]. cbn [startswith lower] in *.
    rewrite lower_char_dot. by destruct (Ascii.eqb "." c). }
  done.
Qed.

Lemma normalizeDomainForDNS_rejects_double_dot_witness :
  normalizeDomainForDNS idna_ldh "a..b" = None.
Proof.
  apply (normalizeDomainForDNS_rejects_double_dot idna_ldh "a..b").
  exists "a", "b". reflexivity.
Defined.

Lemma normalizeDomainForDNS_lower_idempotent_witness :
  lower "www.example.com" = "www.example.com"
  /\ all_chars (fun c => negb (isupper c)) "www.example.com" = true
  /\ normalizeDomainForDNS idna_ldh "www.example.com" = Some "www.example.com".
Proof.
  apply (normalizeDomainForDNS_lower_idempotent idna_ldh "WWW.Example.COM").
  - exact idna_ldh_stable.
  - vm_compute. reflexivity.
Defined.

(** ** Name-to-IP Resolver and Port Scanner *)

Lemma span_all (p : ascii -> bool) (a rest : string) :
  all_chars p a = true ->
  match rest with String c _ => p c = false | EmptyString => True end ->
  span p (a +:+ rest) = (a, rest).
Proof.
  intros Ha Hrest. induction a as [|c a IH]; simpl in *.
  - destruct rest as [|c r]; simpl; [done | by rewrite Hrest].
  - apply andb_true_iff in Ha as [Hc Ha]. by rewrite Hc, IH.
Qed.

Lemma span_spec (p : ascii -> bool) (s a rest : string) :
  span p s = (a, rest) ->
  s = a +:+ rest /\ all_chars p a = true.
Proof.
  revert a rest. induction s as [|c s IH]; intros a rest; simpl.
  - by intros [= <- <-].
  - destruct (p c) eqn:Hc; [|by intros [= <- <-]].
    destruct (span p s) as [a' b']. intros [= <- <-].
    destruct (IH a' b' eq_refl) as [-> Ha]. simpl. by rewrite Hc.
Qed.

Lemma all_chars_app (p : ascii -> bool) (a b : string) :
  all_chars p (a +:+ b) = all_chars p a && all_chars p b.
Proof. induction a as [|c a IH]; simpl; [done | by rewrite IH, andb_assoc]. Qed.

Lemma take_bytes_app (a r : string) :
  take_bytes (String.length a) (a +:+ r) = Some (a, r).
Proof. induction a as [|c a IH]; simpl; [done | by rewrite IH]. Qed.

Lemma take_bytes_Some (n : nat) (s a r : string) :
  take_bytes n s = Some (a, r) -> s = a +:+ r /\ String.length a = n.
Proof.
  revert s a r. induction n as [|n IH]; intros s a r; simpl.
  - by intros [= <- <-].
  - destruct s as [|c s]; [done |].
    destruct (take_bytes n s) as [[a' b']|] eqn:Ht; [|done]. simpl.
    intros [= <- <-]. by destruct (IH _ _ _ Ht) as [-> <-].
Qed.

Lemma utf8_width_pos (c : ascii) : 1 <= utf8_width c.
Proof. unfold utf8_width. repeat case_match; lia. Qed.

Lemma utf8_width_ascii (c : ascii) : (code c <? 128) = true -> utf8_width c = 1.
Proof.
  intros H%Nat.ltb_lt. unfold utf8_width.
  destruct (Nat.ltb_spec (code c) 192); [done | lia].
Qed.

Lemma isdigit_ascii (c : ascii) : isdigit c = true -> (code c <? 128) = true.
Proof.
  unfold isdigit. intros [_ H%Nat.leb_le]%andb_true_iff. apply Nat.ltb_lt. lia.
Qed.

(** An ASCII digit is one character of the class. *)
Lemma decimal_char_ascii (w : World) (c : ascii) :
  isdigit c = true -> decimal_char w (String c EmptyString).
Proof.
  intros H. split; [|done].
  by rewrite utf8_width_ascii by (by apply isdigit_ascii).
Qed.

(** An ASCII character of the class is one of 0-9. *)
Lemma decimal_char_ascii_inv (w : World) (c : ascii) (t : string) :
  decimal_char w (String c t) -> (code c <? 128) = true ->
  t = EmptyString /\ isdigit c = true.
Proof.
  intros [Hlen Hdec] Hc. rewrite (utf8_width_ascii _ Hc) in Hlen.
  destruct t; [done | simpl in Hlen; lia].
Qed.

Lemma re_digit_app (w : World) (ch r : string) :
  decimal_char w ch -> re_digit w (ch +:+ r) = Some r.
Proof.
  destruct ch as [|c t]; [done |]. intros [Hlen Hdec].
  change (re_digit w (String c t +:+ r))
    with ('(ch, rest) ← take_bytes (utf8_width c) (String c t +:+ r);
          if is_decimal w ch then Some rest else None).
  rewrite <- Hlen, take_bytes_app. cbn [mbind option_bind]. by rewrite Hdec.
Qed.

Lemma re_digit_Some (w : World) (s r : string) :
  re_digit w s = Some r -> exists ch, s = ch +:+ r /\ decimal_char w ch.
Proof.
  destruct s as [|c t]; [done |]. unfold re_digit.
  destruct (take_bytes (utf8_width c) (String c t)) as [[ch rest]|] eqn:Ht; [|done].
  simpl. destruct (is_decimal w ch) eqn:Hdec; [|done]. intros [= <-].
  apply take_bytes_Some in Ht as [Hs Hlen]. exists ch. split; [done |].
  pose proof (utf8_width_pos c) as Hpos.
  destruct ch as [|c' t']; [simpl in Hlen; lia |].
  simpl in Hs. injection Hs as <- _. done.
Qed.

Lemma re_digit_dot (w : World) (r : string) : re_digit w ("." +:+ r) = None.
Proof. reflexivity. Qed.

Lemma re_digit_newline (w : World) : re_digit w (String LF EmptyString) = None.
Proof. reflexivity. Qed.

Lemma re_digits_upto_app (w : World) (n : nat) (ds : list string) (rest : string) :
  Forall (decimal_char w) ds -> length ds <= n -> re_digit w rest = None ->
  re_digits_upto w n (foldr String.append EmptyString ds +:+ rest) = rest.
Proof.
  intros Hds. revert n. induction Hds as [|ch ds Hch Hds IH]; intros n Hlen Hrest.
  - destruct n; simpl; [done | by rewrite Hrest].
  - destruct n as [|n]; [simpl in Hlen; lia |].
    cbn [foldr re_digits_upto]. rewrite append_assoc, (re_digit_app _ _ _ Hch).
    apply IH; [simpl in Hlen; lia | done].
Qed.

Lemma re_digits_upto_spec (w : World) (n : nat) (s : string) :
  exists ds,
    s = foldr String.append EmptyString ds +:+ re_digits_upto w n s
    /\ length ds <= n /\ Forall (decimal_char w) ds.
Proof.
  revert s. induction n as [|n IH]; intros s; cbn [re_digits_upto].
  - by exists [].
  - destruct (re_digit w s) as [r|] eqn:Hd.
    + apply re_digit_Some in Hd as (ch & -> & Hch).
      destruct (IH r) as (ds & Hr & Hlen & Hds).
      exists (ch :: ds). cbn [foldr length]. rewrite append_assoc, <- Hr.
      split; [done |]. split; [lia | by constructor].
    + exists []. simpl. split; [done |]. split; [lia | done].
Qed.

Lemma re_digits_1_3_app (w : World) (g rest : string) :
  digit_group w g -> re_digit w rest = None ->
  re_digits_1_3 w (g +:+ rest) = Some rest.
Proof.
  intros (ds & -> & [Hlo Hhi] & Hds) Hrest. unfold re_digits_1_3.
  destruct Hds as [|ch ds Hch Hds]; [simpl in Hlo; lia |].
  cbn [foldr]. rewrite append_assoc, (re_digit_app _ _ _ Hch).
  cbn [mbind option_bind].
  rewrite re_digits_upto_app; [done | done | simpl in Hhi; lia | done].
Qed.

Lemma re_digits_1_3_Some (w : World) (s rest : string) :
  re_digits_1_3 w s = Some rest -> exists g, s = g +:+ rest /\ digit_group w g.
Proof.
  unfold re_digits_1_3. destruct (re_digit w s) as [r|] eqn:Hd; [|done].
  intros H. assert (rest = re_digits_upto w 2 r) as ->
    by (injection H as H; symmetry; exact H).
  clear H. apply re_digit_Some in Hd as (ch & -> & Hch).
  destruct (re_digits_upto_spec w 2 r) as (ds & Hr & Hlen & Hds).
  exists (ch +:+ foldr String.append EmptyString ds).
  split; [by rewrite append_assoc, <- Hr |].
  exists (ch :: ds). split; [done |]. split; [simpl; lia | by constructor].
Qed.

Lemma re_dot_Some (s rest : string) : re_dot s = Some rest -> s = "." +:+ rest.
Proof.
  destruct s as [|c s]; simpl; [done |].
  destruct (Ascii.eqb_spec c ".") as [->|]; [|done]. by intros [= <-].
Qed.

(** One to three of the digits 0-9 are a group of the pattern. *)
Lemma octet_syntax_group (w : World) (a : string) :
  octet_syntax a -> digit_group w a.
Proof.
  intros [Ha Hlen].
  assert (exists ds, a = foldr String.append EmptyString ds
                     /\ length ds = String.length a /\ Forall (decimal_char w) ds)
    as (ds & Hds & Hl & Hall).
  { clear Hlen. induction a as [|c a IH]; [by exists [] |].
    simpl in Ha. apply andb_true_iff in Ha as [Hc Ha].
    destruct (IH Ha) as (ds & Hds & Hl & Hall).
    exists (String c EmptyString :: ds). cbn [foldr length]. simpl.
    split; [by rewrite <- Hds |]. split; [by rewrite Hl |].
    constructor; [by apply decimal_char_ascii | done]. }
  exists ds. split; [done |]. by rewrite Hl.
Qed.

(** A group of the pattern made of ASCII characters is one to three of the
    digits 0-9. *)
Lemma digit_group_ascii (w : World) (g : string) :
  digit_group w g -> is_ascii g = true -> octet_syntax g.
Proof.
  intros (ds & -> & Hlen & Hds) Hascii.
  assert (all_chars isdigit (foldr String.append EmptyString ds) = true
          /\ String.length (foldr String.append EmptyString ds) = length ds)
    as [Hall Hl].
  { clear Hlen. induction Hds as [|ch ds Hch Hds IH]; [done |].
    cbn [foldr] in *. unfold is_ascii in Hascii. rewrite all_chars_app in Hascii.
    apply andb_true_iff in Hascii as [Hch_ascii Hrest].
    destruct ch as [|c t]; [done |]. simpl in Hch_ascii.
    apply andb_true_iff in Hch_ascii as [Hc _].
    destruct (decimal_char_ascii_inv _ _ _ Hch Hc) as [-> Hdigit].
    destruct (IH Hrest) as [IH1 IH2]. simpl. by rewrite Hdigit, IH1, IH2. }
  split; [done | by rewrite Hl].
Qed.

Lemma dotted_quad_digit_quad (w : World) (s : string) :
  dotted_quad s -> digit_quad w s.
Proof.
  intros (a & b & c & d & -> & Ha & Hb & Hc & Hd).
  exists a, b, c, d. split; [done |]. repeat split; by apply octet_syntax_group.
Qed.

Lemma digit_quad_ascii (w : World) (s : string) :
  digit_quad w s -> is_ascii s = true -> dotted_quad s.
Proof.
  intros (a & b & c & d & -> & Ha & Hb & Hc & Hd) Hascii.
  unfold is_ascii in Hascii. rewrite !all_chars_app in Hascii.
  repeat (apply andb_true_iff in Hascii as [? Hascii]).
  exists a, b, c, d. split; [done |]. repeat split; by eapply digit_group_ascii.
Qed.

Lemma digit_quad_is_valid (w : World) (s rest : string) :
  digit_quad w s -> re_digit w rest = None -> re_end rest = true ->
  is_valid_ipv4_address w (s +:+ rest) = true.
Proof.
  intros (a & b & c & d & -> & Ha & Hb & Hc & Hd) Hrest Hend.
  unfold is_valid_ipv4_address. rewrite !append_assoc.
  rewrite (re_digits_1_3_app w a) by (done || apply re_digit_dot). simpl.
  rewrite (re_digits_1_3_app w b) by (done || apply re_digit_dot). simpl.
  rewrite (re_digits_1_3_app w c) by (done || apply re_digit_dot). simpl.
  by rewrite (re_digits_1_3_app w d) by done.
Qed.

(** The strings that [is_valid_ipv4_address] accepts are those of the
    pattern: four groups of one to three decimal digits separated by dots,
    with or without one final newline. *)
Lemma is_valid_ipv4_address_iff (w : World) (s : string) :
  is_valid_ipv4_address w s = true <-> ipv4_pattern w s.
Proof.
  split.
  - unfold is_valid_ipv4_address.
    destruct (re_digits_1_3 w s) as [r1|] eqn:H1; [|done]. simpl.
    destruct (re_dot r1) as [r2|] eqn:H2; [|done]. simpl.
    destruct (re_digits_1_3 w r2) as [r3|] eqn:H3; [|done]. simpl.
    destruct (re_dot r3) as [r4|] eqn:H4; [|done]. simpl.
    destruct (re_digits_1_3 w r4) as [r5|] eqn:H5; [|done]. simpl.
    destruct (re_dot r5) as [r6|] eqn:H6; [|done]. simpl.
    destruct (re_digits_1_3 w r6) as [r7|] eqn:H7; [|done].
    apply re_digits_1_3_Some in H1 as (a & -> & Ha), H3 as (b & -> & Hb),
      H5 as (c & -> & Hc), H7 as (d & -> & Hd).
    apply re_dot_Some in H2 as ->, H4 as ->, H6 as ->.
    unfold re_end. intros [Hend|Hend]%orb_true_iff; apply String.eqb_eq in Hend as ->.
    + left. exists a, b, c, d. by rewrite append_nil_r.
    + right. exists (a +:+ "." +:+ b +:+ "." +:+ c +:+ "." +:+ d).
      split; [by exists a, b, c, d |]. by rewrite !append_assoc.
  - intros [H|(q & H & ->)].
    + rewrite <- (append_nil_r s). by apply digit_quad_is_valid.
    + by apply digit_quad_is_valid.
Qed.


(** On ASCII text the pattern describes the dotted quads and the dotted
    quads followed by one newline. *)
Lemma ipv4_pattern_ascii (w : World) (s : string) :
  is_ascii s = true ->
  ipv4_pattern w s <->
  dotted_quad s \/ exists q, dotted_quad q /\ s = q +:+ String LF EmptyString.
Proof.
  intros Hascii. split.
  - intros [H|(q & H & ->)]; [left; by eapply digit_quad_ascii |].
    right. exists q. split; [|done]. eapply digit_quad_ascii; [done |].
    unfold is_ascii in *. rewrite all_chars_app in Hascii.
    by apply andb_true_iff in Hascii as [? _].
  - intros [H|(q & H & ->)]; [left | right; exists q; split; [|done]];
      by apply dotted_quad_digit_quad.
Qed.


(** X17. The strings that [is_valid_ipv4_address] accepts are exactly four
    groups of one to three decimal digits separated by dots, with or
    without one final newline, where a decimal digit is one of 0-9 or a
    non-ASCII character that the Unicode tables count as a decimal digit.
    On ASCII text these are the dotted quads and the dotted quads followed
    by one newline. *)
Theorem is_valid_ipv4_address_spec (w : World) (s : string) :
  (is_valid_ipv4_address w s = true <-> ipv4_pattern w s)
  /\ (is_ascii s = true ->
      (is_valid_ipv4_address w s = true <->
       dotted_quad s \/ exists q, dotted_quad q /\ s = q +:+ String LF EmptyString)).
Proof.
  split; [apply is_valid_ipv4_address_iff |].
  intros Hascii. rewrite is_valid_ipv4_address_iff. by apply ipv4_pattern_ascii.
Qed.

Lemma is_valid_ipv4_address_spec_witness :
  is_valid_ipv4_address example_world "10.0.0.1" = true <->
  dotted_quad "10.0.0.1"
  \/ exists q, dotted_quad q /\ "10.0.0.1" = q +:+ String LF EmptyString.
Proof.
  apply (proj2 (is_valid_ipv4_address_spec example_world "10.0.0.1")). reflexivity.
Defined.

Lemma resolve_domain_to_ip_literal (w : World) (domain : string) (log : list Request) :
  is_valid_ipv4_address w domain = true ->
  resolve_domain_to_ip w domain log = (Some domain, log).
Proof. intros H. unfold resolve_domain_to_ip. by rewrite H. Qed.

Lemma resolve_domain_to_ip_query (w : World) (domain : string) (log : list Request) :
  is_valid_ipv4_address w domain = false ->
  resolve_domain_to_ip w domain log =
    (match doh w log domain QA with
     | DohJson (first :: _) => Some (ans_data first)
     | _ => None
     end,
     log ++ [DohQuery domain QA]).
Proof.
  intros H. unfold resolve_domain_to_ip. rewrite H.
  unfold mbind, Net_bind, doh_get.
  by destruct (doh w log domain QA) as [e|[|first rest]].
Qed.




Lemma check_single_port_python_eq (w : World) (ip : string) (port : Z)
    (log : list Request) :
  check_single_port_python w ip port log =
    ({| pc_port := port; pc_open := is_open (open_connection w ip port) |},
     log ++ [TcpConnect ip port]).
Proof.
  unfold check_single_port_python, mbind, Net_bind, asyncio_open_connection.
  by destruct (open_connection w ip port).
Qed.

Lemma gather_checks (w : World) (ip : string) (ports : list Z) (log : list Request) :
  net_map (check_single_port_python w ip) ports log =
    ((fun p => {| pc_port := p; pc_open := is_open (open_connection w ip p) |}) <$> ports,
     log ++ (TcpConnect ip <$> ports)).
Proof.
  revert log. induction ports as [|p ports IH]; intros log; simpl.
  - by rewrite app_nil_r.
  - unfold mbind, Net_bind. rewrite check_single_port_python_eq, IH.
    simpl. by rewrite <- app_assoc.
Qed.

Lemma local_port_check_python_eq (w : World) (ip : string) (log : list Request) :
  local_port_check_python w ip log =
    (let results :=
       (fun p => {| pc_port := p; pc_open := is_open (open_connection w ip p) |})
         <$> common_ports in
     {| scan_source := "local-check";
        scan_ports := pc_port <$> filter (fun r => pc_open r = true) results;
        scan_services :=
          (fun r => service_entry (pc_port r)) <$> filter (fun r => pc_open r = true) results;
        scan_note := "Performed local check on common ports." |},
     log ++ (TcpConnect ip <$> common_ports)).
Proof.
  unfold local_port_check_python, mbind, Net_bind. by rewrite gather_checks.
Qed.

(** C7. When, of the scanned ports, exactly 80 and 443 accept the
    connection, the scan reports the open ports 80 and 443 and two service
    entries, http/http for 80 and https/https for 443; a probe that ends in
    a timeout, a refusal or any other error yields a closed port, not an
    exception. *)
Theorem local_port_check_python_80_443 (w : World) (ip : string) (log : list Request) :
  (forall port, port ∈ common_ports ->
     (open_connection w ip port = Connected <-> port = 80%Z \/ port = 443%Z)) ->
  local_port_check_python w ip log =
    ({| scan_source := "local-check";
        scan_ports := [80; 443]%Z;
        scan_services :=
          [ {| svc_port := 80; svc_protocol := "http"; svc_service := "http" |};
            {| svc_port := 443; svc_protocol := "https"; svc_service := "https" |} ];
        scan_note := "Performed local check on common ports." |},
     log ++ (TcpConnect ip <$> common_ports))
  /\ (forall port log',
        open_connection w ip port <> Connected ->
        check_single_port_python w ip port log' =
          ({| pc_port := port; pc_open := false |}, log' ++ [TcpConnect ip port])).
Proof.
  intros H. split.
  - assert (forall p, p ∈ common_ports -> p <> 80%Z -> p <> 443%Z ->
                      is_open (open_connection w ip p) = false) as Hclosed.
    { intros p Hp H80 H443. destruct (open_connection w ip p) eqn:E; try done.
      apply H in E; [lia | done]. }
    assert (forall p, p ∈ common_ports -> p = 80%Z \/ p = 443%Z ->
                      is_open (open_connection w ip p) = true) as Hopen.
    { intros p Hp Hor. apply H in Hor; [|done]. by rewrite Hor. }
    rewrite local_port_check_python_eq. unfold common_ports in *.
    cbn [fmap list_fmap].
    repeat match goal with
    | |- context [is_open (open_connection w ip ?p)] =>
        first [ rewrite (Hclosed p) by (first [ by apply (bool_decide_unpack _); vm_compute | lia ])
              | rewrite (Hopen p) by (first [ by apply (bool_decide_unpack _); vm_compute | lia ]) ]
    end.
    reflexivity.
  - intros port log' Hne. rewrite check_single_port_python_eq.
    by destruct (open_connection w ip port).
Qed.

Lemma local_port_check_python_80_443_witness :
  local_port_check_python web_world example_ip [] =
    ({| scan_source := "local-check";
        scan_ports := [80; 443]%Z;
        scan_services :=
          [ {| svc_port := 80; svc_protocol := "http"; svc_service := "http" |};
            {| svc_port := 443; svc_protocol := "https"; svc_service := "https" |} ];
        scan_note := "Performed local check on common ports." |},
     [] ++ (TcpConnect example_ip <$> common_ports))
  /\ (forall port log',
        open_connection web_world example_ip port <> Connected ->
        check_single_port_python web_world example_ip port log' =
          ({| pc_port := port; pc_open := false |},
           log' ++ [TcpConnect example_ip port])).
Proof.
  apply (local_port_check_python_80_443 web_world example_ip []).
  intros port _. simpl.
  destruct (Z.eqb_spec port 80) as [->|H80]; [simpl; split; [lia | done] |].
  destruct (Z.eqb_spec port 443) as [->|H443]; simpl; split; try done; lia.
Defined.

Lemma run_port_scan_literal (w : World) (target : string) (log : list Request) :
  is_valid_ipv4_address w target = true ->
  exists scan,
    local_port_check_python w target log =
      (scan, log ++ (TcpConnect target <$> common_ports))
    /\ run_port_scan w target log =
         (ScanSuccess target target (scan_source scan) (scan_ports scan)
            (scan_services scan) (scan_note scan),
          log ++ (TcpConnect target <$> common_ports)).
Proof.
  intros H. unfold run_port_scan. rewrite H. simpl.
  unfold mbind, Net_bind. rewrite local_port_check_python_eq.
  eexists. split; reflexivity.
Qed.

(** C9. The pattern of [is_valid_ipv4_address] accepts strings with an
    octet above 255, such as 999.999.999.999: [resolve_domain_to_ip]
    returns such a string unchanged with no request, and [run_port_scan]
    scans it as the address, its only requests being the TCP probes. *)
Theorem is_valid_ipv4_address_accepts_999 (w : World) (log : list Request) :
  let target := "999.999.999.999" in
  Exists (fun v => 255 < v) (octet_values target)
  /\ is_valid_ipv4_address w target = true
  /\ resolve_domain_to_ip w target log = (Some target, log)
  /\ exists scan,
       run_port_scan w target log =
         (ScanSuccess target target "local-check" (scan_ports scan)
            (scan_services scan) (scan_note scan),
          log ++ (TcpConnect target <$> common_ports)).
Proof.
  intros target. split; [|split; [|split]].
  - apply Exists_cons_hd. vm_compute. lia.
  - reflexivity.
  - by apply resolve_domain_to_ip_literal.
  - destruct (run_port_scan_literal w target log) as (scan & Hscan & Hrun); [done |].
    exists scan. rewrite Hrun. rewrite local_port_check_python_eq in Hscan.
    by injection Hscan as <-.
Qed.

(** ** The state monad of the orchestrator *)

Section WpRules.

Implicit Types (E : exn -> EnumState -> Prop) (st : EnumState).

Lemma wp_ret {A : Type} (a : A) (Q : A -> EnumState -> Prop) E st :
  Q a st -> wp (mret a) Q E st.
Proof. done. Qed.

Lemma wp_mono {A : Type} (m : M A) (Q Q' : A -> EnumState -> Prop) E st :
  wp m Q E st -> (forall a st', Q a st' -> Q' a st') -> wp m Q' E st.
Proof. unfold wp. destruct (m st) as [[a|e] st']; auto. Qed.

Lemma wp_bind {A B : Type} (m : M A) (f : A -> M B)
    (Q : A -> EnumState -> Prop) (R : B -> EnumState -> Prop) E st :
  wp m Q E st ->
  (forall a st', Q a st' -> wp (f a) R E st') ->
  wp (m ≫= f) R E st.
Proof.
  unfold wp, mbind, M_bind. destruct (m st) as [[a|e] st']; [|done].
  intros Hq Hf. by apply Hf.
Qed.

Lemma wp_for_each {A : Type} (l : list A) (body : A -> M unit)
    (I : EnumState -> Prop) E st :
  (forall x st', x ∈ l -> I st' -> wp (body x) (fun _ => I) E st') ->
  I st -> wp (for_each l body) (fun _ => I) E st.
Proof.
  revert st. induction l as [|x l IH]; intros st Hbody Hst; simpl; [done |].
  eapply wp_bind.
  - apply Hbody; [left | done].
  - intros [] st' Hst'. apply IH; [|done].
    intros y st'' Hy. apply Hbody. by right.
Qed.

End WpRules.

Lemma wp_await {A : Type} (c : Net A) (P : EnumState -> Prop)
    (E : exn -> EnumState -> Prop) st :
  (forall log', P {| nodes := nodes st; links := links st; node_map := node_map st;
                     next_node_id := next_node_id st; net_log := log' |}) ->
  wp (await c) (fun _ => P) E st.
Proof. intros H. unfold wp, await. destruct (c (net_log st)) as [a log']. apply H. Qed.

(** ** [add_node] and the invariant *)

Lemma add_node_known (t : node_type) (v : string) (l : option string) st i :
  node_map st !! normalize_value v = Some i ->
  add_node t v l st = (Return i, st).
Proof. intros H. unfold add_node. by rewrite H. Qed.

Lemma add_node_fresh (t : node_type) (v : string) (l : option string) st :
  node_map st !! normalize_value v = None ->
  add_node t v l st =
    (Return (next_node_id st),
     {| nodes := nodes st ++
                 [{| node_id := next_node_id st; node_type_of := t;
                     node_value := normalize_value v;
                     node_label := label_or l v;
                     node_txt_records := None |}];
        links := links st;
        node_map := <[normalize_value v := next_node_id st]> (node_map st);
        next_node_id := next_node_id st + 1;
        net_log := net_log st |}).
Proof. intros H. unfold add_node. by rewrite H. Qed.

Lemma graph_inv_initial : graph_inv initial_state.
Proof.
  split; simpl; try done.
  - intros v i. rewrite lookup_empty. split; [done |]. by intros (n & Hn & _).
  - intros l Hl. by apply elem_of_nil in Hl.
Qed.

Lemma graph_inv_known st v i :
  graph_inv st -> node_map st !! v = Some i -> i < length (nodes st).
Proof.
  intros Hinv Hv. apply (inv_map _ Hinv) in Hv as (n & Hn & _).
  by eapply lookup_lt_Some.
Qed.

Lemma graph_inv_add_fresh st (t : node_type) (nv lbl : string) :
  graph_inv st -> node_map st !! nv = None ->
  graph_inv
    {| nodes := nodes st ++
                [{| node_id := next_node_id st; node_type_of := t;
                    node_value := nv; node_label := lbl;
                    node_txt_records := None |}];
       links := links st;
       node_map := <[nv := next_node_id st]> (node_map st);
       next_node_id := next_node_id st + 1;
       net_log := net_log st |}.
Proof.
  intros [Hnext Hids Hmap Hlinks] Hfresh. split; simpl.
  - rewrite length_app. simpl. lia.
  - intros i n Hi. apply lookup_app_Some in Hi as [Hi|[Hge Hi]]; [by apply Hids |].
    apply list_lookup_singleton_Some in Hi as [Hi <-]. simpl. lia.
  - intros v i. destruct (decide (nv = v)) as [<-|Hne].
    + rewrite lookup_insert_eq. split.
      * intros [= <-]. eexists.
        split; [rewrite Hnext, lookup_app_r, Nat.sub_diag by lia | ]; reflexivity.
      * intros (n & Hn & Hv). f_equal.
        apply lookup_app_Some in Hn as [Hn|[Hge Hn]].
        -- assert (node_map st !! nv = Some i) as Hc by (apply Hmap; eauto).
           congruence.
        -- apply list_lookup_singleton_Some in Hn as [Hn _]. lia.
    + rewrite lookup_insert_ne by done. rewrite Hmap. split.
      * intros (n & Hn & Hv). exists n. split; [|done]. by apply lookup_app_l_Some.
      * intros (n & Hn & Hv). exists n. split; [|done].
        apply lookup_app_Some in Hn as [Hn|[Hge Hn]]; [done |].
        apply list_lookup_singleton_Some in Hn as [_ <-]. simpl in Hv. congruence.
  - intros l Hl. rewrite length_app. simpl. destruct (Hlinks l Hl). lia.
Qed.

Lemma wp_add_node (E : exn -> EnumState -> Prop) d ids (t : node_type) (v : string)
    (lbl : option string) st :
  state_ok d ids st ->
  wp (add_node t v lbl) (fun i st' => state_ok d (i :: ids) st') E st.
Proof.
  intros (Hinv & (r & Hr & Hroot) & Hids). unfold wp.
  destruct (node_map st !! normalize_value v) as [i|] eqn:Hv.
  - rewrite (add_node_known _ _ _ _ _ Hv). split; [done |]. split; [by exists r |].
    intros j [->|Hj]%elem_of_cons; [by eapply graph_inv_known | by apply Hids].
  - rewrite (add_node_fresh _ _ _ _ Hv). split; [by apply graph_inv_add_fresh |].
    split.
    + exists r. split; [|done]. simpl. by apply lookup_app_l_Some.
    + simpl. rewrite length_app. simpl. rewrite (inv_next _ Hinv).
      intros j [->|Hj]%elem_of_cons; [lia |]. apply Hids in Hj. lia.
Qed.

(** Membership of an id in a list built by consing onto a known one. *)
Ltac solve_ids := intros; solve [ repeat first [ assumption | left | right ] ].

Lemma state_ok_weaken d ids ids' st :
  (forall i, i ∈ ids' -> i ∈ ids) -> state_ok d ids st -> state_ok d ids' st.
Proof. intros Hsub (Hinv & Hroot & Hids). split; [done |]. split; [done |]. auto. Qed.

Lemma state_ok_log d ids st log' :
  state_ok d ids st ->
  state_ok d ids {| nodes := nodes st; links := links st; node_map := node_map st;
                    next_node_id := next_node_id st; net_log := log' |}.
Proof. intros ([H1 H2 H3 H4] & Hroot & Hids). split; [by split |]. by split. Qed.

Lemma wp_add_link (E : exn -> EnumState -> Prop) d ids (s t : nat) (ty : link_type) st :
  s ∈ ids -> t ∈ ids -> state_ok d ids st ->
  wp (add_link s t ty) (fun _ => state_ok d ids) E st.
Proof.
  intros Hs Ht (Hinv & Hroot & Hids). unfold wp, add_link.
  split; [|by split]. destruct Hinv as [H1 H2 H3 H4]. split; simpl; try done.
  intros l [Hl|Hl]%elem_of_app; [by apply H4 |].
  apply list_elem_of_singleton in Hl as ->. simpl. split; by apply Hids.
Qed.

Lemma set_txt_records_identity (i : nat) (txt : string) (l : list Node) :
  Forall2 same_identity l (set_txt_records i txt l).
Proof.
  induction l as [|n l IH]; simpl; [constructor |].
  destruct (node_id n =? i).
  - constructor; [done | by apply Forall_Forall2_diag, Forall_true].
  - constructor; [done | apply IH].
Qed.

Lemma wp_attach_txt (E : exn -> EnumState -> Prop) d ids (i : nat) (txt : string) st :
  state_ok d ids st -> wp (attach_txt i txt) (fun _ => state_ok d ids) E st.
Proof.
  intros ([H1 H2 H3 H4] & (r & Hr & Hroot) & Hids). unfold wp, attach_txt.
  pose proof (set_txt_records_identity i txt (nodes st)) as HF.
  pose proof (Forall2_length _ _ _ HF) as Hlen.
  repeat split; simpl.
  - by rewrite <- Hlen.
  - intros j n' Hj.
    destruct (Forall2_lookup_r _ _ _ _ _ HF Hj) as (n & Hn & Hsame).
    destruct Hsame as (Hid & _). rewrite <- Hid. by apply H2.
  - intros (n & Hn & Hv)%H3.
    destruct (Forall2_lookup_l _ _ _ _ _ HF Hn) as (n' & Hn' & Hsame).
    exists n'. split; [done |]. destruct Hsame as (_ & _ & Hval & _). congruence.
  - intros (n' & Hn' & Hv). apply H3.
    destruct (Forall2_lookup_r _ _ _ _ _ HF Hn') as (n & Hn & Hsame).
    exists n. split; [done |]. destruct Hsame as (_ & _ & Hval & _). congruence.
  - rewrite <- Hlen. by apply H4.
  - rewrite <- Hlen. by apply H4.
  - destruct (Forall2_lookup_l _ _ _ _ _ HF Hr) as (r' & Hr' & Hsame).
    exists r'. split; [done |].
    destruct Hsame as (Hid & Hty & Hval & Hlab), Hroot as (? & ? & ? & ?).
    repeat split; congruence.
  - intros j Hj. rewrite <- Hlen. by apply Hids.
Qed.

Section OrchestratorInvariant.

Variable idna_encode : string -> option string.
Variable globals : Globals.
Variable w : World.
Variable E : exn -> EnumState -> Prop.
Hypothesis resolver_ok : resolver_allowed globals E.
Variable d : string.

Lemma wp_await_ok {A : Type} (c : Net A) ids st :
  state_ok d ids st -> wp (await c) (fun _ => state_ok d ids) E st.
Proof. intros H. apply wp_await. intros log'. by apply state_ok_log. Qed.

Lemma wp_call_resolver (name : string) ids st :
  state_ok d ids st ->
  wp (call_resolver globals name) (fun _ => state_ok d ids) E st.
Proof.
  intros H. unfold call_resolver.
  destruct (run_port_scan_resolve_domain_to_ip globals) as [f|] eqn:Hf.
  - by apply wp_await_ok.
  - unfold wp, raise. by apply resolver_ok.
Qed.

Lemma wp_link_ptr (ip : string) (ip_id : nat) (owner : string) ids st :
  ip_id ∈ ids -> state_ok d ids st ->
  wp (link_ptr w ip ip_id owner) (fun _ => state_ok d ids) E st.
Proof.
  intros Hid H. unfold link_ptr.
  eapply wp_bind; [by apply wp_await_ok |]. intros hostname st1 H1; cbv beta in H1.
  destruct hostname as [h|]; [|by apply wp_ret].
  destruct (negb (String.eqb h EmptyString) && negb (String.eqb (lower h) owner));
    [|by apply wp_ret].
  eapply wp_bind; [by apply wp_add_node |]. intros hostname_id st2 H2; cbv beta in H2.
  eapply wp_mono; [apply wp_add_link; [| |exact H2]; solve_ids |].
  intros ? st3. cbv beta. apply state_ok_weaken. solve_ids.
Qed.

Lemma wp_link_server_ip (hostname : string) (server_id : nat) ids st :
  server_id ∈ ids -> state_ok d ids st ->
  wp (link_server_ip globals w hostname server_id) (fun _ => state_ok d ids) E st.
Proof.
  intros Hid H. unfold link_server_ip.
  eapply wp_bind; [by apply wp_call_resolver |]. intros server_ip st1 H1; cbv beta in H1.
  destruct server_ip as [ip|]; [|by apply wp_ret].
  destruct (String.eqb ip EmptyString); [by apply wp_ret |].
  eapply wp_bind; [by apply wp_add_node |]. intros ip_id st2 H2; cbv beta in H2.
  eapply wp_bind; [apply wp_add_link; [| |exact H2]; solve_ids |].
  intros [] st3 H3; cbv beta in H3.
  eapply wp_mono; [apply wp_link_ptr; [|exact H3]; solve_ids |].
  intros ? st4. cbv beta. apply state_ok_weaken. solve_ids.
Qed.

Lemma wp_a_records (domain : string) (main : nat) (rs : Records) ids st :
  main ∈ ids -> state_ok d ids st ->
  wp (a_records w domain main rs) (fun _ => state_ok d ids) E st.
Proof.
  intros Hid H. unfold a_records. apply wp_for_each; [|done].
  intros ip st0 _ H0.
  eapply wp_bind; [by apply wp_add_node |]. intros ip_id st1 H1; cbv beta in H1.
  eapply wp_bind; [apply wp_add_link; [| |exact H1]; solve_ids |].
  intros [] st2 H2; cbv beta in H2.
  eapply wp_mono; [apply wp_link_ptr; [|exact H2]; solve_ids |].
  intros ? st3. cbv beta. apply state_ok_weaken. solve_ids.
Qed.

Lemma wp_aaaa_records (main : nat) (rs : Records) ids st :
  main ∈ ids -> state_ok d ids st ->
  wp (aaaa_records main rs) (fun _ => state_ok d ids) E st.
Proof.
  intros Hid H. unfold aaaa_records. apply wp_for_each; [|done].
  intros ip st0 _ H0.
  eapply wp_bind; [by apply wp_add_node |]. intros ip_id st1 H1; cbv beta in H1.
  eapply wp_mono; [apply wp_add_link; [| |exact H1]; solve_ids |].
  intros ? st3. cbv beta. apply state_ok_weaken. solve_ids.
Qed.

Lemma wp_server_records (t : node_type) (ty : link_type) (name : string)
    (main : nat) ids st :
  main ∈ ids -> state_ok d ids st ->
  wp (server_id ← add_node t name None;
      add_link main server_id ty;;
      link_server_ip globals w name server_id)
     (fun _ => state_ok d ids) E st.
Proof.
  intros Hid H.
  eapply wp_bind; [by apply wp_add_node |]. intros server_id st1 H1; cbv beta in H1.
  eapply wp_bind; [apply wp_add_link; [| |exact H1]; solve_ids |].
  intros [] st2 H2; cbv beta in H2.
  eapply wp_mono; [apply wp_link_server_ip; [|exact H2]; solve_ids |].
  intros ? st3. cbv beta. apply state_ok_weaken. solve_ids.
Qed.

Lemma wp_mx_records (main : nat) (rs : Records) ids st :
  main ∈ ids -> state_ok d ids st ->
  wp (mx_records globals w main rs) (fun _ => state_ok d ids) E st.
Proof.
  intros Hid H. unfold mx_records. apply wp_for_each; [|done].
  intros mx st0 _ H0. by apply wp_server_records.
Qed.

Lemma wp_ns_records (main : nat) (rs : Records) ids st :
  main ∈ ids -> state_ok d ids st ->
  wp (ns_records globals w main rs) (fun _ => state_ok d ids) E st.
Proof.
  intros Hid H. unfold ns_records. apply wp_for_each; [|done].
  intros ns st0 _ H0. by apply wp_server_records.
Qed.

Lemma wp_txt_records (main : nat) (rs : Records) ids st :
  state_ok d ids st ->
  wp (txt_records main rs) (fun _ => state_ok d ids) E st.
Proof.
  intros H. unfold txt_records.
  destruct (rec_TXT rs); [by apply wp_ret | by apply wp_attach_txt].
Qed.

Lemma wp_cname_records (domain : string) (main : nat) (rs : Records) ids st :
  main ∈ ids -> state_ok d ids st ->
  wp (cname_records globals domain main rs) (fun _ => state_ok d ids) E st.
Proof.
  intros Hid H. unfold cname_records. apply wp_for_each; [|done].
  intros [name target] st0 _ H0. cbn [fst snd].
  eapply wp_bind; [by apply wp_add_node |]. intros origin_id st1 H1; cbv beta in H1.
  eapply wp_bind; [by apply wp_add_node |]. intros target_id st2 H2; cbv beta in H2.
  eapply wp_bind; [apply wp_add_link; [| |exact H2]; solve_ids |].
  intros [] st3 H3; cbv beta in H3.
  eapply wp_bind.
  { instantiate (1 := fun _ => state_ok d (target_id :: origin_id :: ids)).
    destruct (String.eqb _ domain); [|by apply wp_ret].
    apply wp_add_link; [| |exact H3]; solve_ids. }
  intros [] st4 H4; cbv beta in H4.
  eapply wp_bind; [by apply wp_call_resolver |]. intros target_ip st5 H5; cbv beta in H5.
  destruct target_ip as [ip|]; [|apply wp_ret; revert H5; apply state_ok_weaken; solve_ids].
  destruct (String.eqb ip EmptyString);
    [apply wp_ret; revert H5; apply state_ok_weaken; solve_ids |].
  eapply wp_bind; [by apply wp_add_node |]. intros ip_id st6 H6; cbv beta in H6.
  eapply wp_mono; [apply wp_add_link; [| |exact H6]; solve_ids |].
  intros ? st7. cbv beta. apply state_ok_weaken. solve_ids.
Qed.

Lemma wp_subdomain_nodes (domain : string) (main : nat) (discovered : gset string)
    ids st :
  main ∈ ids -> state_ok d ids st ->
  wp (subdomain_nodes globals w domain main discovered) (fun _ => state_ok d ids) E st.
Proof.
  intros Hid H. unfold subdomain_nodes. apply wp_for_each; [|done].
  intros subdomain st0 _ H0. unfold subdomain_step.
  destruct (negb (String.eqb subdomain domain)); [|by apply wp_ret].
  eapply wp_bind; [by apply wp_add_node |]. intros sub_id st1 H1; cbv beta in H1.
  eapply wp_bind; [apply wp_add_link; [| |exact H1]; solve_ids |].
  intros [] st2 H2; cbv beta in H2.
  eapply wp_bind; [apply wp_link_server_ip; [|exact H2]; solve_ids |].
  intros [] st3 H3; cbv beta in H3. apply wp_ret. revert H3. apply state_ok_weaken. solve_ids.
Qed.

End OrchestratorInvariant.

Lemma normalize_value_idem (s : string) :
  normalize_value (normalize_value s) = normalize_value s.
Proof.
  unfold normalize_value.
  by rewrite lower_strip, lower_idem, strip_idem.
Qed.

Lemma label_or_same (s : string) : label_or (Some s) s = s.
Proof. unfold label_or. by destruct (String.eqb s EmptyString). Qed.

Section RunInvariant.

Variable idna_encode : string -> option string.
Variable globals : Globals.
Variable w : World.
Variable E : exn -> EnumState -> Prop.
Hypothesis resolver_ok : resolver_allowed globals E.

(** The invariant holds when the body returns, and the result is made of
    the final [nodes] and [links]. *)
Lemma wp_run_dns_enum_body (domain : string) :
  wp (run_dns_enum_body idna_encode globals w domain)
     (fun g st =>
        state_ok (normalize_value domain) [0] st
        /\ g = {| graph_nodes := nodes st; graph_links := links st |})
     E initial_state.
Proof.
  unfold run_dns_enum_body. fold (normalize_value domain).
  set (d := normalize_value domain).
  eapply wp_bind.
  { instantiate (1 := fun i st => i = 0 /\ state_ok d [0] st).
    unfold wp. rewrite add_node_fresh by apply lookup_empty.
    split; [done |].
    split; [apply graph_inv_add_fresh; [apply graph_inv_initial | apply lookup_empty] |].
    split.
    - eexists. split; [reflexivity |].
      cbn [node_id node_type_of node_value node_label].
      rewrite label_or_same. unfold d. by rewrite normalize_value_idem.
    - intros i ->%list_elem_of_singleton. simpl. lia. }
  intros main st1 [-> H1].
  eapply wp_bind; [by apply wp_await_ok |]. intros rs st2 H2; cbv beta in H2.
  eapply wp_bind; [apply wp_a_records; [solve_ids | exact H2] |].
  intros [] st3 H3; cbv beta in H3.
  eapply wp_bind; [apply wp_aaaa_records; [solve_ids | exact H3] |].
  intros [] st4 H4; cbv beta in H4.
  eapply wp_bind; [apply wp_mx_records; [done | solve_ids | exact H4] |].
  intros [] st5 H5; cbv beta in H5.
  eapply wp_bind; [apply wp_ns_records; [done | solve_ids | exact H5] |].
  intros [] st6 H6; cbv beta in H6.
  eapply wp_bind; [apply wp_txt_records; exact H6 |].
  intros [] st7 H7; cbv beta in H7.
  eapply wp_bind; [apply wp_cname_records; [done | solve_ids | exact H7] |].
  intros [] st8 H8; cbv beta in H8.
  eapply wp_bind; [by apply wp_await_ok |]. intros crt st9 H9; cbv beta in H9.
  eapply wp_bind; [apply wp_subdomain_nodes; [done | solve_ids | exact H9] |].
  intros [] st10 H10; cbv beta in H10.
  unfold wp, graph_of_state. done.
Qed.

End RunInvariant.

(** What the invariant says about the returned graph. *)
Lemma graph_inv_ids st :
  graph_inv st -> node_id <$> nodes st = seq 0 (length (nodes st)).
Proof.
  intros Hinv. apply list_eq. intros i. rewrite list_lookup_fmap.
  destruct (nodes st !! i) as [n|] eqn:Hn; simpl.
  - rewrite (inv_ids _ Hinv _ _ Hn). symmetry. apply lookup_seq_lt.
    by eapply lookup_lt_Some.
  - symmetry. apply lookup_seq_ge. by apply lookup_ge_None.
Qed.

Lemma graph_inv_links_closed st :
  graph_inv st ->
  links_closed {| graph_nodes := nodes st; graph_links := links st |}.
Proof.
  intros Hinv l Hl. simpl in *.
  destruct (inv_links _ Hinv l Hl) as [Hs Ht].
  apply lookup_lt_is_Some_2 in Hs as [ns Hns], Ht as [nt Hnt].
  split; [exists ns | exists nt];
    (split; [by eapply list_elem_of_lookup_2 | by eapply inv_ids]).
Qed.

Lemma graph_inv_values_unique st :
  graph_inv st -> NoDup (node_value <$> nodes st).
Proof.
  intros Hinv. apply NoDup_alt. intros i j v.
  rewrite !list_lookup_fmap. intros Hi Hj.
  apply fmap_Some in Hi as (ni & Hni & ->), Hj as (nj & Hnj & Hv).
  assert (node_map st !! node_value ni = Some i) as Hmi by (apply (inv_map _ Hinv); eauto).
  assert (node_map st !! node_value ni = Some j) as Hmj by (apply (inv_map _ Hinv); eauto).
  congruence.
Qed.

Lemma observe_all_inv (obs : list (node_type * string * option string)) :
  graph_inv (observe_all obs).
Proof.
  unfold observe_all. generalize graph_inv_initial. generalize initial_state.
  induction obs as [|[[t v] l] obs IH]; intros st Hst; simpl; [done |].
  apply IH. unfold observe. simpl.
  destruct (node_map st !! normalize_value v) as [i|] eqn:Hv.
  - by rewrite (add_node_known _ _ _ _ _ Hv).
  - rewrite (add_node_fresh _ _ _ _ Hv). by apply graph_inv_add_fresh.
Qed.

Lemma run_dns_enum_returns_ok idna_encode globals (w : World) (domain : string) g log :
  run_dns_enum idna_encode globals w domain = (Return g, log) ->
  exists st, state_ok (normalize_value domain) [0] st
    /\ g = {| graph_nodes := nodes st; graph_links := links st |}.
Proof.
  unfold run_dns_enum.
  pose proof (wp_run_dns_enum_body idna_encode globals w (fun _ _ => True)
                (fun _ _ _ => I) domain) as Hwp.
  unfold wp in Hwp.
  destruct (run_dns_enum_body idna_encode globals w domain initial_state)
    as [[g'|e] st]; [|done].
  intros [= <- <-]. by exists st.
Qed.

(** ** Properties of the returned graph *)

(** C10. In every graph that [run_dns_enum] returns, the node ids are
    0, 1, 2, ... in the order of the node list, so each node's id is its
    index, and the source and the target of every link are ids of nodes of
    the list. *)
Theorem run_dns_enum_ids_and_links (idna_encode : string -> option string)
    (globals : Globals) (w : World) (domain : string) (g : graph_data)
    (log : list Request) :
  run_dns_enum idna_encode globals w domain = (Return g, log) ->
  ids_sequential g
  /\ (forall i n, graph_nodes g !! i = Some n -> node_id n = i)
  /\ links_closed g.
Proof.
  intros Hrun. apply run_dns_enum_returns_ok in Hrun as (st & (Hinv & _) & ->).
  split; [by apply graph_inv_ids |]. split; [apply (inv_ids _ Hinv) |].
  by apply graph_inv_links_closed.
Qed.

Lemma run_dns_enum_ids_and_links_witness :
  exists g log,
    run_dns_enum idna_ldh (linked_globals example_world) example_world "example.com"
      = (Return g, log)
    /\ ids_sequential g
    /\ (forall i n, graph_nodes g !! i = Some n -> node_id n = i)
    /\ links_closed g.
Proof.
  eexists _, _. split; [vm_compute; reflexivity |].
  eapply (run_dns_enum_ids_and_links idna_ldh (linked_globals example_world)
            example_world "example.com").
  vm_compute. reflexivity.
Defined.

(** C2. In any state, observing a value whose normalized form is already
    in [node_map] returns the id recorded for it and leaves the whole state
    as it is: no node is added, and the node of that id keeps its type and
    label whatever the type of the new observation. After any sequence of
    node observations the values of the nodes are pairwise distinct and the
    id recorded for a value is that of the node that carries it. The node
    values of every returned graph are pairwise distinct. *)
Theorem add_node_deduplicates :
  (forall st (t : node_type) (v : string) (l : option string) (i : nat),
     node_map st !! normalize_value v = Some i ->
     add_node t v l st = (Return i, st))
  /\ (forall obs : list (node_type * string * option string),
        let st := observe_all obs in
        NoDup (node_value <$> nodes st)
        /\ forall (v : string) (i : nat),
             node_map st !! normalize_value v = Some i ->
             exists n, nodes st !! i = Some n /\ node_id n = i
               /\ node_value n = normalize_value v)
  /\ (forall idna_encode globals (w : World) (domain : string) g log,
        run_dns_enum idna_encode globals w domain = (Return g, log) ->
        NoDup (node_value <$> graph_nodes g)).
Proof.
  split; [|split].
  - intros st t v l i Hv. by apply add_node_known.
  - intros obs st. pose proof (observe_all_inv obs) as Hinv. fold st in Hinv.
    split; [by apply graph_inv_values_unique |].
    intros v i Hv.
    pose proof Hv as (n & Hn & Hval)%(inv_map _ Hinv).
    exists n. split; [done |]. split; [by eapply inv_ids | done].
  - intros idna_encode globals w domain g log Hrun.
    apply run_dns_enum_returns_ok in Hrun as (st & (Hinv & _) & ->).
    by apply graph_inv_values_unique.
Qed.

Lemma add_node_deduplicates_witness :
  let st := observe_all [(Domain, "Example.com", None); (IPv4, "10.0.0.1", None)] in
  add_node MailServer " EXAMPLE.COM" None st = (Return 0, st)
  /\ exists n, nodes st !! 0 = Some n /\ node_id n = 0
       /\ node_value n = normalize_value " EXAMPLE.COM".
Proof.
  split.
  - apply (proj1 add_node_deduplicates). vm_compute. reflexivity.
  - apply (proj2 (proj1 (proj2 add_node_deduplicates)
                    [(Domain, "Example.com", None); (IPv4, "10.0.0.1", None)])).
    vm_compute. reflexivity.
Defined.

(** C3, amended. With [run_port_scan_resolve_domain_to_ip] bound to a
    resolver, [run_dns_enum] returns a graph for every domain string and
    every behaviour of the upstream services, all of them failing included;
    the first node of the graph is the root domain node. The root domain is
    not validated: no input makes the call report an error. *)
Theorem run_dns_enum_returns_root (idna_encode : string -> option string)
    (resolver : string -> Net (option string)) (w : World) (domain : string) :
  exists g log root,
    run_dns_enum idna_encode
      {| run_port_scan_resolve_domain_to_ip := Some resolver |} w domain
      = (Return g, log)
    /\ graph_nodes g !! 0 = Some root
    /\ node_id root = 0 /\ node_type_of root = Domain
    /\ node_value root = normalize_value domain
    /\ node_label root = normalize_value domain.
Proof.
  unfold run_dns_enum.
  pose proof (wp_run_dns_enum_body idna_encode
                {| run_port_scan_resolve_domain_to_ip := Some resolver |} w
                (fun _ _ => False)) as Hwp.
  specialize (Hwp ltac:(intros Hnone; discriminate Hnone) domain).
  unfold wp in Hwp.
  destruct (run_dns_enum_body _ _ w domain initial_state) as [[g|e] st]; [|done].
  destruct Hwp as ((_ & (root & Hroot & Hprops) & _) & ->).
  by exists {| graph_nodes := nodes st; graph_links := links st |}, (net_log st), root.
Qed.

(** C3 as stated fails: a root that the Normalizer rejects is not reported
    as an error; it is enumerated like any other, whether or not the
    resolver name is bound. *)
Lemma run_dns_enum_error_policy_counterexample :
  let root_only :=
    {| graph_nodes :=
         [{| node_id := 0; node_type_of := Domain; node_value := "a..b";
             node_label := "a..b"; node_txt_records := None |}];
       graph_links := [] |} in
  normalizeDomainForDNS idna_ldh "a..b" = None
  /\ fst (run_dns_enum idna_ldh module_globals dead_world "a..b") = Return root_only
  /\ fst (run_dns_enum idna_ldh (linked_globals dead_world) dead_world "a..b")
     = Return root_only.
Proof. repeat split; vm_compute; reflexivity. Qed.

(** The module as it stands: for the valid root example.com the first
    accepted wordlist subdomain reaches the call of the unbound name, and
    the call ends in [NameError], here with every upstream lookup
    failing. *)
Lemma run_dns_enum_unbound_resolver :
  normalizeDomainForDNS idna_ldh "example.com" = Some "example.com"
  /\ fst (run_dns_enum idna_ldh module_globals dead_world "example.com")
     = Raise (NameError "run_port_scan_resolve_domain_to_ip").
Proof. split; vm_compute; reflexivity. Qed.

(** ** Subdomain discovery from crt.sh *)

Lemma string_length_app (a b : string) :
  String.length (a +:+ b) = String.length a + String.length b.
Proof. induction a as [|c a IH]; simpl; [done | by rewrite IH]. Qed.

Lemma crt_accepts_spec (domain name : string) :
  crt_accepts domain name = true <-> under_root domain name.
Proof.
  unfold crt_accepts, under_root.
  rewrite orb_true_iff, endswith_spec, String.eqb_eq. tauto.
Qed.

(** A name that ends with a dot and the root is not the root. *)
Lemma endswith_dot_ne (domain name : string) :
  endswith name ("." +:+ domain) = true -> String.eqb name domain = false.
Proof.
  intros [a Ha]%endswith_spec. apply String.eqb_neq. intros ->.
  apply (f_equal String.length) in Ha.
  rewrite string_length_app in Ha. simpl in Ha. lia.
Qed.

Lemma crt_common_name_eq (domain cn : string) (subdomains : gset string) :
  crt_common_name domain cn subdomains =
    if crt_accepts domain cn then {[ folded domain cn ]} ∪ subdomains else subdomains.
Proof.
  unfold crt_common_name, crt_accepts, folded.
  destruct (endswith cn ("." +:+ domain) || String.eqb cn domain); [|done].
  by destruct (startswith cn "*." && negb (String.eqb cn domain)).
Qed.

Lemma crt_name_eq (domain name : string) (subdomains : gset string) :
  crt_name domain name subdomains =
    if crt_accepts domain (strip name)
    then {[ folded domain (strip name) ]} ∪ subdomains
    else subdomains.
Proof.
  unfold crt_name, crt_accepts, folded.
  destruct (endswith (strip name) ("." +:+ domain)) eqn:Hend.
  - rewrite (endswith_dot_ne _ _ Hend). cbn [andb orb negb].
    rewrite andb_true_r. by destruct (startswith (strip name) "*.").
  - rewrite andb_false_r. cbn [andb orb negb].
    destruct (String.eqb (strip name) domain); [|done].
    by rewrite andb_false_r.
Qed.

(** Membership in a set built by a loop that adds at most one element per
    iteration. *)
Lemma elem_of_foldl_add {A : Type} (step : gset string -> A -> gset string)
    (accepts : A -> bool) (item : A -> string) (l : list A) (S : gset string)
    (x : string) :
  (forall acc a, step acc a = if accepts a then {[ item a ]} ∪ acc else acc) ->
  x ∈ foldl step S l <->
  x ∈ S \/ exists a, a ∈ l /\ accepts a = true /\ x = item a.
Proof.
  intros Hstep. revert S. induction l as [|a l IH]; intros S; simpl.
  - split; [by left | intros [H|(a & Ha & _)]; [done | by apply elem_of_nil in Ha]].
  - rewrite IH, Hstep. split.
    + intros [H|(b & Hb & Hacc & ->)].
      * destruct (accepts a) eqn:Ha; [|by left].
        apply elem_of_union in H as [->%elem_of_singleton|H]; [|by left].
        right. exists a. split; [left | done].
      * right. exists b. split; [by right | done].
    + intros [H|(b & Hb & Hacc & ->)].
      * left. destruct (accepts a); [|done]. apply elem_of_union. by right.
      * apply elem_of_cons in Hb as [->|Hb].
        -- left. rewrite Hacc. apply elem_of_union. left. by apply elem_of_singleton.
        -- right. by exists b.
Qed.

Lemma fold_crt_name (domain : string) (lines : list string) (S : gset string) :
  foldl (fun acc name => crt_name domain name acc) S lines
  = record_names domain (strip <$> lines) S.
Proof.
  unfold record_names. revert S.
  induction lines as [|line lines IH]; intros S; [done |].
  cbn [foldl fmap list_fmap]. by rewrite crt_name_eq, IH.
Qed.

Lemma record_names_app (domain : string) (a b : list string) (S : gset string) :
  record_names domain (a ++ b) S = record_names domain b (record_names domain a S).
Proof. unfold record_names. apply foldl_app. Qed.

Lemma elem_of_record_names (domain : string) (names : list string) (S : gset string)
    (x : string) :
  x ∈ record_names domain names S <->
  x ∈ S \/ exists name, name ∈ names /\ crt_accepts domain name = true
                        /\ x = folded domain name.
Proof.
  unfold record_names.
  by rewrite (elem_of_foldl_add _ (crt_accepts domain) (folded domain)).
Qed.

(** One pass through the body: what is recorded, and whether the pass
    raised. *)
Lemma crt_cert_eq (domain : string) (c : cert) (S : gset string) :
  crt_cert domain c S =
    match common_name c, name_value c with
    | FieldOther, _ => Raised S
    | cn, FieldOther =>
        Raised (record_names domain
                  (cert_names {| common_name := cn; name_value := FieldAbsent |}) S)
    | _, _ => Completed (record_names domain (cert_names c) S)
    end.
Proof.
  destruct c as [[|cn|] [|nv|]]; unfold crt_cert, crt_name_value, cert_names;
    cbn [common_name name_value app]; rewrite ?crt_common_name_eq, ?fold_crt_name;
    try reflexivity; by rewrite record_names_app.
Qed.

Lemma crt_certs_eq (domain : string) (certs : list cert) (S : gset string) :
  crt_certs domain certs S
  = record_names domain (mjoin (cert_names <$> certs_read certs)) S.
Proof.
  revert S. induction certs as [|c certs IH]; intros S; [done |].
  cbn [crt_certs certs_read]. rewrite crt_cert_eq.
  destruct (common_name c) as [|cn|], (name_value c) as [|nv|];
    cbn [fmap list_fmap mjoin list_join]; rewrite ?app_nil_r, ?record_names_app, ?IH;
    reflexivity.
Qed.

Lemma elem_of_crt_certs (domain : string) (certs : list cert) (S : gset string)
    (x : string) :
  x ∈ crt_certs domain certs S <->
  x ∈ S \/ exists c name, c ∈ certs_read certs /\ name ∈ cert_names c
                          /\ crt_accepts domain name = true /\ x = folded domain name.
Proof.
  rewrite crt_certs_eq, elem_of_record_names. split.
  - intros [H|(name & Hn & Hacc & ->)]; [by left | right].
    apply list_elem_of_join in Hn as (names & Hn & (c & -> & Hc)%list_elem_of_fmap).
    by exists c, name.
  - intros [H|(c & name & Hc & Hn & Hacc & ->)]; [by left | right].
    exists name. split; [|done]. apply list_elem_of_join.
    exists (cert_names c). split; [done |]. by apply list_elem_of_fmap_2.
Qed.

(** A reply whose fields are strings is read whole. *)
Lemma certs_read_typed (certs : list cert) :
  Forall cert_typed certs -> certs_read certs = certs.
Proof.
  induction 1 as [|c certs [Hcn Hnv] _ IH]; [done |].
  cbn [certs_read]. rewrite IH.
  by destruct (common_name c), (name_value c).
Qed.

Lemma discover_subdomains_crtsh_eq (w : World) (domain : string) (log : list Request) :
  discover_subdomains_crtsh w domain log =
    (set_order w (crt_certs domain (certs_of (crtsh w log domain)) ∅),
     log ++ [CrtshQuery domain]).
Proof.
  unfold discover_subdomains_crtsh, mbind, Net_bind, crtsh_get.
  by destruct (crtsh w log domain).
Qed.

(** The names in the output are the recorded forms of the accepted names
    of the part of the reply that is read. *)
Lemma elem_of_discover_subdomains_crtsh (w : World) (domain : string)
    (log : list Request) (x : string) :
  set_order_ok w ->
  x ∈ fst (discover_subdomains_crtsh w domain log) <->
  exists c name,
    c ∈ certs_read (certs_of (crtsh w log domain)) /\ name ∈ cert_names c
    /\ under_root domain name /\ x = folded domain name.
Proof.
  intros Horder. rewrite discover_subdomains_crtsh_eq. cbn [fst].
  rewrite (Horder _), elem_of_elements, elem_of_crt_certs. split.
  - intros [H|(c & name & Hc & Hn & Hacc & ->)]; [by apply elem_of_empty in H |].
    exists c, name. by rewrite <- crt_accepts_spec.
  - intros (c & name & Hc & Hn & Hacc & ->). right.
    exists c, name. by rewrite crt_accepts_spec.
Qed.


Lemma star_lower_char (c : ascii) : Ascii.eqb (lower_char c) "*" = Ascii.eqb c "*".
Proof. destruct c as [[] [] [] [] [] [] [] []]; reflexivity. Qed.

Lemma dot_lower_char (c : ascii) : Ascii.eqb (lower_char c) "." = Ascii.eqb c ".".
Proof. destruct c as [[] [] [] [] [] [] [] []]; reflexivity. Qed.

Lemma replace_star_dot_lower (s : string) :
  replace_star_dot (lower s) = lower (replace_star_dot s).
Proof.
  assert (forall n s, String.length s <= n ->
            replace_star_dot (lower s) = lower (replace_star_dot s)) as H.
  { clear s. induction n as [|n IH]; intros s Hlen.
    - destruct s; [done | simpl in Hlen; lia].
    - destruct s as [|c [|d r]]; [done | done |].
      cbn [lower replace_star_dot]. rewrite star_lower_char, dot_lower_char.
      destruct (Ascii.eqb c "*" && Ascii.eqb d ".").
      + apply IH. simpl in Hlen. lia.
      + cbn [lower]. f_equal. apply (IH (String d r)). simpl in *. lia. }
  by apply (H (String.length s)).
Qed.

(** Without an occurrence of the wildcard marker, nothing is removed. *)
Lemma replace_star_dot_none (s : string) :
  contains "*." s = false -> replace_star_dot s = s.
Proof.
  induction s as [|c s IH]; [done |].
  cbn [contains]. intros [Hhead Htail]%orb_false_iff.
  destruct s as [|d r]; [done |].
  cbn [replace_star_dot]. cbn [startswith] in Hhead.
  rewrite (Ascii.eqb_sym c), (Ascii.eqb_sym d).
  destruct (Ascii.eqb "*" c); [destruct (Ascii.eqb "." d); [done |] |];
    simpl; f_equal; by apply IH.
Qed.

(** C8, amended. For a reply in which each [common_name] and [name_value]
    that is present is a string, a string is in the output of
    [discover_subdomains_crtsh] exactly when it is the recorded form of
    some [common_name], or trimmed line of a [name_value], that, as the
    certificate spells it, equals the root domain or ends with a dot
    followed by the root domain. The recorded form is the lower-cased name,
    with the wildcard marker removed when the name starts with it; for a
    wildcard name whose remainder has no further marker that is the
    lower-cased remainder. *)
Theorem discover_subdomains_crtsh_spec (w : World) (domain : string)
    (log : list Request) :
  set_order_ok w ->
  Forall cert_typed (certs_of (crtsh w log domain)) ->
  (forall x,
     x ∈ fst (discover_subdomains_crtsh w domain log) <->
     exists c name,
       c ∈ certs_of (crtsh w log domain) /\ name ∈ cert_names c
       /\ under_root domain name /\ x = folded domain name)
  /\ (forall name, startswith name "*." = false -> folded domain name = lower name)
  /\ (forall rest,
        contains "*." rest = false -> "*." +:+ rest <> domain ->
        folded domain ("*." +:+ rest) = lower rest).
Proof.
  intros Horder Htyped. split; [|split].
  - intros x. rewrite elem_of_discover_subdomains_crtsh by done.
    by rewrite certs_read_typed.
  - intros name Hstart. unfold folded. by rewrite Hstart.
  - intros rest Hrest Hne. unfold folded.
    apply String.eqb_neq in Hne. rewrite Hne.
    change (startswith ("*." +:+ rest) "*.") with true. cbn [andb negb].
    rewrite replace_star_dot_lower. f_equal.
    change ("*." +:+ rest) with (String "*" (String "." rest)).
    cbn [replace_star_dot]. cbn [Ascii.eqb andb Bool.eqb]. by apply replace_star_dot_none.
Qed.

Lemma discover_subdomains_crtsh_spec_witness :
  "dev.example.com" ∈ fst (discover_subdomains_crtsh mixed_case_world "example.com" [])
  /\ folded "example.com" "*.dev.example.com" = lower "dev.example.com".
Proof.
  destruct (discover_subdomains_crtsh_spec mixed_case_world "example.com" [])
    as (Hmem & _ & Hfold).
  { intros X. reflexivity. }
  { constructor; [by split | constructor]. }
  split.
  - apply Hmem. eexists _, "*.dev.example.com".
    split; [left |]. split; [vm_compute; do 2 right; left |].
    split; [right; by exists "*.dev" | reflexivity].
  - apply (Hfold "dev.example.com"); [reflexivity | discriminate].
Defined.

(** C8 as stated fails on case: the lower-cased form of WWW.EXAMPLE.COM is
    a strict subdomain of example.com, yet the name is not in the output,
    because the suffix test is applied before lower-casing. It fails as well
    on a reply with a field that is not a string: after an entry whose
    [common_name] is [null], the name www.example.com of the next entry is
    not in the output. *)
Lemma discover_subdomains_crtsh_case_counterexample :
  let out := fst (discover_subdomains_crtsh mixed_case_world "example.com" []) in
  let out' := fst (discover_subdomains_crtsh null_name_world "example.com" []) in
  "WWW.EXAMPLE.COM" ∈ cert_names mixed_case_cert
  /\ under_root "example.com" (lower "WWW.EXAMPLE.COM")
  /\ (lower "WWW.EXAMPLE.COM" ∉ out)
  /\ out = ["mail.example.com"; "dev.example.com"]
  /\ "www.example.com" ∈ cert_names www_cert
  /\ under_root "example.com" (lower "www.example.com")
  /\ out' = [].
Proof.
  split; [left |]. split; [right; by exists "www" |].
  split; [|split; [vm_compute; reflexivity |]].
  - vm_compute. intros H. repeat (apply elem_of_cons in H as [H|H]; [discriminate H |]).
    by apply elem_of_nil in H.
  - split; [left |]. split; [right; by exists "www" |]. vm_compute. reflexivity.
Qed.


(** ** The end-to-end scenario *)

Lemma bind_return {A B : Type} (m : M A) (f : A -> M B) st (a : A) st' :
  m st = (Return a, st') -> (m ≫= f) st = f a st'.
Proof. intros H. unfold mbind, M_bind. by rewrite H. Qed.

Lemma fetch_record_type_eq (w : World) (d : string) (r : Records) (q : qtype)
    (log : list Request) :
  fetch_record_type w d r q log =
    (foldl (fun r a => store_answer q a r) r (answers_of (doh w log d q)),
     log ++ [DohQuery d q]).
Proof.
  unfold fetch_record_type, mbind, Net_bind, doh_get.
  by destruct (doh w log d q).
Qed.

(** SOA answers touch no field that the orchestrator reads. *)
Lemma foldl_store_soa (l : list dns_answer) (r : Records) :
  let r' := foldl (fun r a => store_answer QSOA a r) r l in
  rec_A r' = rec_A r /\ rec_AAAA r' = rec_AAAA r /\ rec_MX r' = rec_MX r
  /\ rec_NS r' = rec_NS r /\ rec_TXT r' = rec_TXT r /\ rec_CNAME r' = rec_CNAME r.
Proof.
  revert r. induction l as [|a l IH]; intros r; simpl; [done |].
  destruct (IH (store_answer QSOA a r)) as (H1 & H2 & H3 & H4 & H5 & H6).
  simpl in *. rewrite H1, H2, H3, H4, H5, H6. by destruct r.
Qed.

Lemma get_dns_records_single_a (w : World) (d ip : string) (log : list Request) :
  (forall log, ans_data <$> answers_of (doh w log d QA) = [ip]) ->
  (forall log q, q ∈ [QAAAA; QMX; QNS; QTXT; QCNAME] -> answers_of (doh w log d q) = []) ->
  exists rs log',
    get_dns_records w d log = (rs, log')
    /\ rec_A rs = [ip] /\ rec_AAAA rs = [] /\ rec_MX rs = []
    /\ rec_NS rs = [] /\ rec_TXT rs = [] /\ rec_CNAME rs = [].
Proof.
  intros HA Hnone. unfold get_dns_records, query_types. cbn [net_fold].
  unfold mbind, Net_bind. rewrite !fetch_record_type_eq.
  rewrite (Hnone _ QAAAA), (Hnone _ QMX), (Hnone _ QNS), (Hnone _ QTXT),
    (Hnone _ QCNAME) by (repeat first [left | right]).
  specialize (HA log). destruct (answers_of (doh w log d QA)) as [|a [|b l]]; try done.
  injection HA as Ha. cbn [foldl]. unfold mret, Net_ret.
  eexists _, _. split; [reflexivity |].
  match goal with |- context [foldl _ ?r ?l] =>
    destruct (foldl_store_soa l r) as (H1 & H2 & H3 & H4 & H5 & H6) end.
  cbv zeta in *. rewrite H1, H2, H3, H4, H5, H6. simpl. by rewrite Ha.
Qed.

Lemma link_ptr_none (w : World) (ip : string) (ip_id : nat) (owner : string) st :
  no_other_name owner (gethostbyaddr w (net_log st) ip) ->
  link_ptr w ip ip_id owner st =
    (Return tt,
     {| nodes := nodes st; links := links st; node_map := node_map st;
        next_node_id := next_node_id st;
        net_log := net_log st ++ [ReverseLookup ip] |}).
Proof.
  intros H. unfold link_ptr, perform_reverse_dns_lookup, socket_gethostbyaddr.
  unfold mbind at 1, M_bind, await, mbind, Net_bind.
  destruct (gethostbyaddr w (net_log st) ip) as [h|]; [|done].
  unfold mret at 1, Net_ret. simpl in H.
  destruct H as [->| <-]; [done |]. by rewrite String.eqb_refl, andb_false_r.
Qed.

(** One iteration of the subdomain loop for a name that is new to the graph
    and that the resolver finds no address for. *)
Lemma subdomain_step_unresolved (resolver : string -> Net (option string)) (w : World)
    (d : string) (main : nat) (s : string) (ns : list Node) (ls : list Link)
    (m : gmap string nat) (k : nat) (log : list Request) :
  String.eqb s d = false -> normalize_value s = s -> m !! s = None ->
  fst (resolver s log) = None ->
  subdomain_step {| run_port_scan_resolve_domain_to_ip := Some resolver |} w d main s
    {| nodes := ns; links := ls; node_map := m; next_node_id := k; net_log := log |}
  = (Return tt,
     {| nodes := ns ++ [subdomain_node k s];
        links := ls ++ [subdomain_link main k];
        node_map := <[s := k]> m; next_node_id := k + 1;
        net_log := snd (resolver s log) |}).
Proof.
  intros Hne Hnorm Hfresh Hres.
  assert (resolver s log = (None, snd (resolver s log))) as Hpair
    by (rewrite <- Hres; apply surjective_pairing).
  unfold subdomain_step. rewrite Hne. cbn [negb].
  erewrite bind_return by (apply add_node_fresh; cbn [node_map]; by rewrite Hnorm).
  cbn [next_node_id nodes links node_map net_log].
  erewrite bind_return by reflexivity.
  unfold link_server_ip, call_resolver. cbn [run_port_scan_resolve_domain_to_ip].
  erewrite bind_return; cycle 1.
  { erewrite bind_return; cycle 1.
    { unfold await. cbn [net_log]. rewrite Hpair. reflexivity. }
    reflexivity. }
  rewrite Hnorm. reflexivity.
Qed.

(** The subdomain loop over such names: one node and one link per name. *)
Lemma subdomain_loop_unresolved (resolver : string -> Net (option string)) (w : World)
    (d : string) (main : nat) (subs : list string) :
  forall (ns : list Node) (ls : list Link) (m : gmap string nat) (k : nat)
         (log : list Request),
    NoDup subs ->
    (forall s, s ∈ subs ->
       String.eqb s d = false /\ normalize_value s = s /\ m !! s = None
       /\ forall log, fst (resolver s log) = None) ->
    exists m' log',
      for_each subs
        (subdomain_step {| run_port_scan_resolve_domain_to_ip := Some resolver |}
           w d main)
        {| nodes := ns; links := ls; node_map := m; next_node_id := k; net_log := log |}
      = (Return tt,
         {| nodes := ns ++ imap (fun i s => subdomain_node (k + i) s) subs;
            links := ls ++ imap (fun i _ => subdomain_link main (k + i)) subs;
            node_map := m'; next_node_id := k + length subs; net_log := log' |}).
Proof.
  induction subs as [|s subs IH]; intros ns ls m k log Hnodup Hsubs.
  - exists m, log. simpl. by rewrite !app_nil_r, Nat.add_0_r.
  - apply NoDup_cons in Hnodup as [Hs Hnodup].
    destruct (Hsubs s) as (Hne & Hnorm & Hfresh & Hres); [left |].
    cbn [for_each].
    erewrite bind_return by (by apply subdomain_step_unresolved).
    edestruct (IH (ns ++ [subdomain_node k s]) (ls ++ [subdomain_link main k])
                 (<[s := k]> m) (k + 1)) as (m' & log' & Hloop); [done | |].
    { intros s' Hs'. destruct (Hsubs s') as (H1 & H2 & H3 & H4); [by right |].
      repeat split; try done. rewrite lookup_insert_ne; [done |].
      intros ->. contradiction. }
    exists m', log'. rewrite Hloop. f_equal. f_equal.
    + rewrite <- app_assoc. f_equal. simpl. rewrite Nat.add_0_r. f_equal.
      apply imap_ext. intros i x _. simpl. f_equal. lia.
    + rewrite <- app_assoc. f_equal. simpl. rewrite Nat.add_0_r. f_equal.
      apply imap_ext. intros i x _. simpl. f_equal. lia.
    + simpl. lia.
Qed.

Lemma wordlist_subdomains_all (idna_encode : string -> option string) (d : string) :
  (forall c, c ∈ wordlist_candidates d ->
     truthy (normalizeDomainForDNS idna_encode c) = true) ->
  wordlist_subdomains idna_encode d = list_to_set (wordlist_candidates d).
Proof.
  unfold wordlist_subdomains, wordlist_candidates.
  generalize COMMON_SUBDOMAINS. intros l Hall.
  apply Forall_forall, Forall_fmap in Hall.
  rewrite <- (right_id_L ∅ (∪) (list_to_set _)). generalize (∅ : gset string).
  induction Hall as [|sub l Hsub Hall IH]; intros acc; simpl.
  - by rewrite (left_id_L ∅ (∪)).
  - simpl in Hsub. rewrite Hsub, IH.
    by rewrite (comm_L (∪) {[ _ ]} (list_to_set _)), <- (assoc_L (∪)).
Qed.

Lemma candidate_ok_spec (d ip c : string) :
  candidate_ok d ip c = true ->
  lower c = c /\ normalize_value c = c /\ contains ".." c = false
  /\ String.eqb c EmptyString = false /\ startswith c "-" = false /\ endswith c "-" = false
  /\ String.eqb c d = false /\ String.eqb c ip = false.
Proof.
  unfold candidate_ok. rewrite !andb_true_iff, !negb_true_iff, !String.eqb_eq.
  tauto.
Qed.

Lemma normalizeDomainForDNS_accepts (idna_encode : string -> option string)
    (d ip c : string) :
  candidate_ok d ip c = true -> idna_encode c = Some c ->
  normalizeDomainForDNS idna_encode c = Some c.
Proof.
  intros (H1 & _ & H2 & H3 & H4 & H5 & _)%candidate_ok_spec Hidna.
  unfold normalizeDomainForDNS. by rewrite H2, Hidna, H1, H3, H2, H4, H5.
Qed.

Lemma example_candidates_ok :
  forall c, c ∈ wordlist_candidates "example.com" ->
    candidate_ok "example.com" example_ip c = true.
Proof.
  intros c Hc%list_elem_of_In. revert c Hc. apply forallb_forall.
  vm_compute. reflexivity.
Qed.

Lemma example_candidates_nodup : NoDup (wordlist_candidates "example.com").
Proof. apply (bool_decide_unpack _). vm_compute. exact I. Qed.


(** C1, amended. With the resolver name bound, one A record
    (93.184.216.34) for example.com and no AAAA, MX, NS, TXT or CNAME
    record, no certificate from crt.sh, no other name from the reverse
    lookup, and no address for any wordlist candidate, [run_dns_enum]
    returns 27 nodes: the domain node, the address node, and one subdomain
    node for each of the 25 wordlist candidates, in the order in which the
    set is iterated; and 26 links: the A_record link from the root to the
    address and a has_subdomain link from the root to each subdomain
    node. *)
Theorem run_dns_enum_example (idna_encode : string -> option string)
    (resolver : string -> Net (option string)) (w : World) :
  (forall c, c ∈ wordlist_candidates "example.com" -> idna_encode c = Some c) ->
  set_order_ok w ->
  (forall log, ans_data <$> answers_of (doh w log "example.com" QA) = [example_ip]) ->
  (forall log q, q ∈ [QAAAA; QMX; QNS; QTXT; QCNAME] ->
     answers_of (doh w log "example.com" q) = []) ->
  (forall log, certs_of (crtsh w log "example.com") = []) ->
  (forall log, no_other_name "example.com" (gethostbyaddr w log example_ip)) ->
  (forall c log, c ∈ wordlist_candidates "example.com" -> fst (resolver c log) = None) ->
  exists subs log,
    subs ≡ₚ wordlist_candidates "example.com"
    /\ run_dns_enum idna_encode
         {| run_port_scan_resolve_domain_to_ip := Some resolver |} w "example.com"
       = (Return
            {| graph_nodes :=
                 example_root_node :: example_ip_node
                 :: imap (fun i s => subdomain_node (2 + i) s) subs;
               graph_links :=
                 example_a_link :: imap (fun i _ => subdomain_link 0 (2 + i)) subs |},
          log)
    /\ length (example_root_node :: example_ip_node
               :: imap (fun i s => subdomain_node (2 + i) s) subs) = 27
    /\ length (example_a_link :: imap (fun i _ => subdomain_link 0 (2 + i)) subs) = 26.
Proof.
  intros Hidna Horder HA Hnone Hcrt Hptr Hres.
  set (d := "example.com").
  set (subs := set_order w (list_to_set (wordlist_candidates d))).
  assert (subs ≡ₚ wordlist_candidates d) as Hperm.
  { unfold subs. rewrite (Horder _). apply elements_list_to_set.
    apply example_candidates_nodup. }
  destruct (get_dns_records_single_a w d example_ip [] HA Hnone)
    as (rs & log1 & Hget & HrA & HrAAAA & HrMX & HrNS & HrTXT & HrCNAME).
  assert (wordlist_subdomains idna_encode d = list_to_set (wordlist_candidates d))
    as Hwords.
  { apply wordlist_subdomains_all. intros c Hc.
    rewrite (normalizeDomainForDNS_accepts _ d example_ip)
      by first [by apply example_candidates_ok | by apply Hidna].
    pose proof (example_candidates_ok c Hc) as (_ & _ & _ & Hc' & _)%candidate_ok_spec.
    simpl. by rewrite Hc'. }
  edestruct (subdomain_loop_unresolved resolver w d 0 subs
               [example_root_node; example_ip_node] [example_a_link]
               (<[example_ip := 1]> (<[d := 0]> ∅)) 2) as (m' & log' & Hloop).
  { rewrite Hperm. apply example_candidates_nodup. }
  { intros s Hs. rewrite Hperm in Hs.
    pose proof (example_candidates_ok s Hs)
      as (_ & Hnorm & _ & _ & _ & _ & Hd & Hip)%candidate_ok_spec.
    apply String.eqb_neq in Hip. pose proof Hd as Hd'%String.eqb_neq.
    split; [done |]. split; [done |]. split; [|intros log; by apply Hres].
    rewrite !lookup_insert_ne by done. apply lookup_empty. }
  exists subs. eexists. split; [done |]. split.
  - unfold run_dns_enum, run_dns_enum_body.
    change (strip (lower d)) with d.
    erewrite bind_return by (apply add_node_fresh; reflexivity).
    change (normalize_value d) with d. change (label_or (Some d) d) with d.
    cbn [nodes links node_map next_node_id net_log initial_state app Nat.add].
    erewrite bind_return by (unfold await; cbn [net_log]; rewrite Hget; reflexivity).
    cbn [nodes links node_map next_node_id net_log].
    (* A records *)
    unfold a_records. rewrite HrA. cbn [for_each].
    erewrite bind_return; cycle 1.
    { erewrite bind_return; cycle 1.
      { erewrite bind_return by (apply add_node_fresh; reflexivity).
        erewrite bind_return by reflexivity.
        cbn [nodes links node_map next_node_id net_log app Nat.add].
        apply link_ptr_none. apply Hptr. }
      reflexivity. }
    cbn [nodes links node_map next_node_id net_log].
    change (normalize_value example_ip) with example_ip.
    change (label_or None example_ip) with example_ip.
    (* no AAAA, MX, NS, TXT, CNAME record *)
    unfold aaaa_records, mx_records, ns_records, txt_records, cname_records.
    rewrite HrAAAA, HrMX, HrNS, HrTXT, HrCNAME. cbn [for_each].
    do 5 (erewrite bind_return by reflexivity).
    (* crt.sh has nothing *)
    erewrite bind_return; cycle 1.
    { unfold await. cbn [net_log]. rewrite discover_subdomains_crtsh_eq, Hcrt.
      cbn [crt_certs]. reflexivity. }
    assert (set_order w ∅ = []) as ->.
    { apply Permutation_nil_r. rewrite (Horder ∅). by rewrite elements_empty. }
    cbn [add_crtsh_subdomains foldl]. unfold add_crtsh_subdomains. cbn [foldl].
    rewrite Hwords. unfold subdomain_nodes. fold subs.
    cbn [nodes links node_map next_node_id net_log].
    erewrite bind_return by exact Hloop.
    unfold graph_of_state. reflexivity.
  - rewrite !length_cons, !length_imap, Hperm. split; reflexivity.
Qed.

Lemma example_world_unresolved (c : string) (log : list Request) :
  c ∈ wordlist_candidates "example.com" ->
  fst (resolve_domain_to_ip example_world c log) = None.
Proof.
  intros Hc.
  assert (is_valid_ipv4_address example_world c = false /\ String.eqb c "example.com" = false)
    as [Hip Hne].
  { apply list_elem_of_In in Hc. revert c Hc.
    assert (forallb (fun c => negb (is_valid_ipv4_address example_world c)
                              && negb (String.eqb c "example.com"))
              (wordlist_candidates "example.com") = true) as Hall
      by (vm_compute; reflexivity).
    intros c Hc. pose proof (proj1 (forallb_forall _ _) Hall c Hc) as H.
    apply andb_true_iff in H as [H1 H2]. by rewrite negb_true_iff in H1, H2. }
  rewrite resolve_domain_to_ip_query by done. cbn [fst doh example_world].
  by rewrite Hne.
Qed.

Lemma run_dns_enum_example_witness :
  exists subs log,
    subs ≡ₚ wordlist_candidates "example.com"
    /\ run_dns_enum idna_ldh (linked_globals example_world) example_world "example.com"
       = (Return
            {| graph_nodes :=
                 example_root_node :: example_ip_node
                 :: imap (fun i s => subdomain_node (2 + i) s) subs;
               graph_links :=
                 example_a_link :: imap (fun i _ => subdomain_link 0 (2 + i)) subs |},
          log)
    /\ length (example_root_node :: example_ip_node
               :: imap (fun i s => subdomain_node (2 + i) s) subs) = 27
    /\ length (example_a_link :: imap (fun i _ => subdomain_link 0 (2 + i)) subs) = 26.
Proof.
  apply (run_dns_enum_example idna_ldh (resolve_domain_to_ip example_world)
           example_world).
  - apply Forall_forall, (bool_decide_unpack _). vm_compute. exact I.
  - intros X. reflexivity.
  - intros log. reflexivity.
  - intros log q Hq. destruct q; try reflexivity.
    repeat (apply elem_of_cons in Hq as [Hq|Hq]; [discriminate Hq |]).
    by apply elem_of_nil in Hq.
  - intros log. reflexivity.
  - intros log. exact I.
  - intros c log Hc. by apply example_world_unresolved.
Defined.

(** C1 as stated fails. In the scenario of the claim, with the resolver
    name bound to [resolve_domain_to_ip], the call returns 27 nodes and 26
    links, not 2 and 1; the module as it stands raises [NameError] at the
    first wordlist subdomain and returns no graph at all. *)
Lemma run_dns_enum_example_counterexample :
  (exists g log,
     run_dns_enum idna_ldh (linked_globals example_world) example_world "example.com"
       = (Return g, log)
     /\ length (graph_nodes g) = 27 /\ length (graph_links g) = 26
     /\ ~ (length (graph_nodes g) = 2 /\ length (graph_links g) = 1))
  /\ fst (run_dns_enum idna_ldh module_globals example_world "example.com")
     = Raise (NameError "run_port_scan_resolve_domain_to_ip").
Proof.
  split; [|vm_compute; reflexivity].
  eexists _, _. split; [vm_compute; reflexivity |].
  split; [reflexivity |]. split; [reflexivity |].
  intros [H _]. discriminate H.
Qed.

(** ** Further properties: DNS Record Resolver *)

Lemma foldl_store_answer (q : qtype) (l : list dns_answer)
    (a aaaa mx ns txt : list string) (cname : list (string * string))
    (soa : option string) (ptr : list string) :
  foldl (fun r x => store_answer q x r) (Build_Records a aaaa mx ns txt cname soa ptr) l =
  match q with
  | QA => Build_Records (a ++ (ans_data <$> l)) aaaa mx ns txt cname soa ptr
  | QAAAA => Build_Records a (aaaa ++ (ans_data <$> l)) mx ns txt cname soa ptr
  | QMX => Build_Records a aaaa (mx ++ (ans_data <$> l)) ns txt cname soa ptr
  | QNS => Build_Records a aaaa mx (ns ++ (ans_data <$> l)) txt cname soa ptr
  | QTXT => Build_Records a aaaa mx ns (txt ++ (ans_data <$> l)) cname soa ptr
  | QCNAME =>
      Build_Records a aaaa mx ns txt
        (cname ++ ((fun x => (ans_name x, ans_data x)) <$> l)) soa ptr
  | QSOA =>
      Build_Records a aaaa mx ns txt cname
        (from_option Some soa (last (ans_data <$> l))) ptr
  end.
Proof.
  revert a aaaa mx ns txt cname soa.
  induction l as [|x l IH]; intros a aaaa mx ns txt cname soa.
  - destruct q; cbn [foldl fmap list_fmap last from_option]; by rewrite ?app_nil_r.
  - cbn [foldl]. destruct q; cbn [store_answer]; rewrite IH, ?fmap_cons, <- ?app_assoc;
      try done.
    f_equal. destruct l as [|y l]; [done |].
    rewrite !fmap_cons, last_cons_cons.
    destruct (last (ans_data y :: (ans_data <$> l))) eqn:Hlast; [done |].
    by apply last_None in Hlast.
Qed.

(** X1. [get_dns_records] always issues the seven lookups A, AAAA, MX, NS,
    TXT, CNAME, SOA, in this order, whatever the replies. Each list of the
    result holds the [data] of the answers to its own lookup, in answer
    order, and is empty when that lookup failed or had no answer; CNAME
    holds the (name, data) pairs; SOA is the data of the last SOA answer;
    PTR is always empty. *)
Theorem get_dns_records_spec (w : World) (domain : string) (log : list Request) :
  get_dns_records w domain log =
    ({| rec_A := data_of (doh w (dns_log log domain 0) domain QA);
        rec_AAAA := data_of (doh w (dns_log log domain 1) domain QAAAA);
        rec_MX := data_of (doh w (dns_log log domain 2) domain QMX);
        rec_NS := data_of (doh w (dns_log log domain 3) domain QNS);
        rec_TXT := data_of (doh w (dns_log log domain 4) domain QTXT);
        rec_CNAME :=
          (fun a => (ans_name a, ans_data a))
            <$> answers_of (doh w (dns_log log domain 5) domain QCNAME);
        rec_SOA := last (data_of (doh w (dns_log log domain 6) domain QSOA));
        rec_PTR := [] |},
     dns_log log domain 7).
Proof.
  unfold get_dns_records, query_types, empty_records. cbn [net_fold].
  unfold mbind, Net_bind. rewrite !fetch_record_type_eq.
  do 7 (rewrite foldl_store_answer; cbv iota).
  unfold dns_log, data_of, query_types, mret, Net_ret.
  cbn [take fmap list_fmap app from_option]. rewrite <- !app_assoc, app_nil_r.
  f_equal. f_equal. by destruct (last _).
Qed.

(** ** Further properties: Port Scanner *)

Lemma filter_open_results (w : World) (ip : string) (ports : list Z) :
  pc_port <$> filter (fun r => pc_open r = true)
    ((fun p => {| pc_port := p; pc_open := is_open (open_connection w ip p) |}) <$> ports)
  = filter (fun p => open_connection w ip p = Connected) ports.
Proof.
  induction ports as [|p ports IH]; [done |].
  rewrite fmap_cons, !filter_cons. cbn [pc_open].
  destruct (open_connection w ip p) eqn:Hp; cbn [is_open];
    repeat case_decide; try done; rewrite ?fmap_cons; by rewrite IH.
Qed.

Lemma filter_open_services (w : World) (ip : string) (ports : list Z) :
  (fun r => service_entry (pc_port r)) <$> filter (fun r => pc_open r = true)
    ((fun p => {| pc_port := p; pc_open := is_open (open_connection w ip p) |}) <$> ports)
  = service_entry <$> filter (fun p => open_connection w ip p = Connected) ports.
Proof.
  induction ports as [|p ports IH]; [done |].
  rewrite fmap_cons, !filter_cons. cbn [pc_open].
  destruct (open_connection w ip p) eqn:Hp; cbn [is_open];
    repeat case_decide; try done; rewrite ?fmap_cons; by rewrite IH.
Qed.

Lemma local_port_check_python_open_ports (w : World) (ip : string) (log : list Request) :
  local_port_check_python w ip log =
    ({| scan_source := "local-check";
        scan_ports := open_ports_of w ip;
        scan_services := service_entry <$> open_ports_of w ip;
        scan_note := "Performed local check on common ports." |},
     log ++ (TcpConnect ip <$> common_ports)).
Proof.
  rewrite local_port_check_python_eq. cbv zeta.
  by rewrite filter_open_results, filter_open_services.
Qed.

Lemma service_entry_port (port : Z) : svc_port (service_entry port) = port.
Proof.
  unfold service_entry.
  repeat match goal with |- context [(port =? ?k)%Z] => destruct (port =? k)%Z end;
    reflexivity.
Qed.

Lemma service_entry_known (port : Z) :
  port ∈ common_ports -> svc_service (service_entry port) <> "unknown".
Proof.
  unfold common_ports. intros H.
  repeat (apply elem_of_cons in H as [->|H]; [by vm_compute |]).
  by apply elem_of_nil in H.
Qed.

Lemma service_entry_unmapped (port : Z) :
  port ∉ common_ports ->
  service_entry port =
    {| svc_port := port; svc_protocol := "tcp"; svc_service := "unknown" |}.
Proof.
  unfold common_ports. intros H. unfold service_entry.
  repeat match goal with
  | |- context [(port =? ?k)%Z] =>
      destruct (Z.eqb_spec port k) as [->|_];
        [exfalso; apply H; apply (bool_decide_unpack _); by vm_compute |]
  end.
  reflexivity.
Qed.

(** X2. Whatever the probes return, [local_port_check_python] probes each
    of the 17 ports of [common_ports] once, in table order, and reports as
    open exactly those that accepted the connection, in table order, with
    one service entry per open port in the same order; no reported service
    is named unknown. *)
Theorem local_port_check_python_spec (w : World) (ip : string) (log : list Request) :
  let scan := fst (local_port_check_python w ip log) in
  snd (local_port_check_python w ip log) = log ++ (TcpConnect ip <$> common_ports)
  /\ scan_ports scan = filter (fun p => open_connection w ip p = Connected) common_ports
  /\ (forall port, port ∈ scan_ports scan <->
        port ∈ common_ports /\ open_connection w ip port = Connected)
  /\ scan_ports scan `sublist_of` common_ports
  /\ scan_services scan = service_entry <$> scan_ports scan
  /\ svc_port <$> scan_services scan = scan_ports scan
  /\ (forall s, s ∈ scan_services scan -> svc_service s <> "unknown").
Proof.
  rewrite local_port_check_python_open_ports. cbn [fst snd scan_ports scan_services].
  unfold open_ports_of.
  split; [done |]. split; [done |].
  split; [intros port; rewrite list_elem_of_filter; tauto |].
  split; [apply sublist_filter |]. split; [done |]. split.
  - rewrite <- list_fmap_compose. rewrite <- (list_fmap_id (filter _ _)) at 2.
    apply list_fmap_ext. intros i p _. apply service_entry_port.
  - intros s (p & -> & Hp)%list_elem_of_fmap.
    apply list_elem_of_filter in Hp as [_ Hp]. by apply service_entry_known.
Qed.

(** X3. The service table names every port that the scanner probes and
    no other: [service_entry] answers unknown, over tcp, exactly for the
    ports outside [common_ports]. *)
Theorem service_entry_unknown_iff (port : Z) :
  (svc_service (service_entry port) = "unknown" <-> port ∉ common_ports)
  /\ svc_port (service_entry port) = port
  /\ (port ∉ common_ports -> svc_protocol (service_entry port) = "tcp").
Proof.
  split; [|split; [apply service_entry_port |]].
  - split.
    + intros Hunknown Hin. by apply (service_entry_known port).
    + intros Hnot. by rewrite service_entry_unmapped.
  - intros Hnot. by rewrite service_entry_unmapped.
Qed.

Lemma service_entry_unknown_iff_witness :
  svc_protocol (service_entry 8081) = "tcp".
Proof.
  apply (proj2 (proj2 (service_entry_unknown_iff 8081))).
  intros H. apply (bool_decide_pack _) in H. by vm_compute in H.
Defined.

(** X4. For a target that does not match the IPv4 pattern,
    [run_port_scan] issues one A query. Without a usable first answer it
    returns the error result and probes nothing; with one, it scans the
    data of the first answer, whatever that string is, and reports the
    target as given. *)
Theorem run_port_scan_resolution (w : World) (target : string) (log : list Request) :
  is_valid_ipv4_address w target = false ->
  (forall first rest,
     doh w log target QA = DohJson (first :: rest) ->
     ans_data first <> EmptyString ->
     run_port_scan w target log =
       (ScanSuccess target (ans_data first) "local-check"
          (open_ports_of w (ans_data first))
          (service_entry <$> open_ports_of w (ans_data first))
          "Performed local check on common ports.",
        log ++ DohQuery target QA :: (TcpConnect (ans_data first) <$> common_ports)))
  /\ (match doh w log target QA with
      | DohJson (first :: _) => ans_data first = EmptyString
      | DohJson [] => True
      | DohFailure _ => True
      end ->
      run_port_scan w target log =
        (ScanError (resolve_error target) "DNS resolution failed.",
         log ++ [DohQuery target QA])).
Proof.
  intros Hip. unfold run_port_scan. rewrite Hip. cbn [negb].
  split.
  - intros first rest Hreply Hdata.
    unfold mbind at 1, Net_bind. rewrite (resolve_domain_to_ip_query _ _ _ Hip), Hreply.
    apply String.eqb_neq in Hdata. rewrite Hdata.
    unfold mbind, Net_bind. rewrite local_port_check_python_open_ports.
    cbn [scan_source scan_ports scan_services scan_note]. unfold mret, Net_ret.
    by rewrite <- app_assoc.
  - intros Hreply.
    unfold mbind at 1, Net_bind. rewrite (resolve_domain_to_ip_query _ _ _ Hip).
    destruct (doh w log target QA) as [e|[|first rest]]; try done.
    by rewrite Hreply.
Qed.

Lemma run_port_scan_resolution_witness :
  run_port_scan dead_world "example.com" [] =
    (ScanError (resolve_error "example.com") "DNS resolution failed.",
     [] ++ [DohQuery "example.com" QA]).
Proof.
  apply (run_port_scan_resolution dead_world "example.com" []); reflexivity.
Defined.

(** ** Further properties: subdomain discovery *)

(** X5. When the crt.sh request fails, or returns no certificate,
    [discover_subdomains_crtsh] returns the empty list; in every case it
    issues exactly one request. *)
Theorem discover_subdomains_crtsh_no_certs (w : World) (domain : string)
    (log : list Request) :
  set_order_ok w ->
  snd (discover_subdomains_crtsh w domain log) = log ++ [CrtshQuery domain]
  /\ (certs_of (crtsh w log domain) = [] ->
      fst (discover_subdomains_crtsh w domain log) = [])
  /\ ((exists e, crtsh w log domain = CrtFailure e) ->
      fst (discover_subdomains_crtsh w domain log) = []).
Proof.
  intros Horder. rewrite discover_subdomains_crtsh_eq. cbn [fst snd].
  assert (certs_of (crtsh w log domain) = [] ->
          set_order w (crt_certs domain (certs_of (crtsh w log domain)) ∅) = [])
    as Hnil.
  { intros ->. cbn [crt_certs]. apply Permutation_nil_r.
    by rewrite (Horder ∅), elements_empty. }
  split; [done |]. split; [done |].
  intros [e He]. apply Hnil. by rewrite He.
Qed.

Lemma discover_subdomains_crtsh_no_certs_witness :
  fst (discover_subdomains_crtsh dead_world "example.com" []) = [].
Proof.
  apply (proj2 (proj2 (discover_subdomains_crtsh_no_certs dead_world "example.com" []
                         (fun X => reflexivity _)))).
  by exists RequestError.
Defined.

Lemma lower_folded (domain name : string) :
  lower (folded domain name) = folded domain name.
Proof.
  unfold folded.
  destruct (startswith name "*." && negb (String.eqb name domain)).
  - by rewrite replace_star_dot_lower, lower_idem.
  - apply lower_idem.
Qed.

(** X6. The list that [discover_subdomains_crtsh] returns has no
    duplicates, and every name in it is lower-case. *)
Theorem discover_subdomains_crtsh_lower_nodup (w : World) (domain : string)
    (log : list Request) :
  set_order_ok w ->
  NoDup (fst (discover_subdomains_crtsh w domain log))
  /\ forall x, x ∈ fst (discover_subdomains_crtsh w domain log) -> lower x = x.
Proof.
  intros Horder. rewrite discover_subdomains_crtsh_eq. cbn [fst]. split.
  - rewrite (Horder _). apply NoDup_elements.
  - intros x. rewrite (Horder _), elem_of_elements, elem_of_crt_certs.
    intros [H|(c & name & _ & _ & _ & ->)]; [by apply elem_of_empty in H |].
    apply lower_folded.
Qed.

Lemma discover_subdomains_crtsh_lower_nodup_witness :
  NoDup (fst (discover_subdomains_crtsh mixed_case_world "example.com" []))
  /\ forall x, x ∈ fst (discover_subdomains_crtsh mixed_case_world "example.com" [])
       -> lower x = x.
Proof.
  apply (discover_subdomains_crtsh_lower_nodup mixed_case_world "example.com" []).
  intros X. reflexivity.
Defined.

Lemma contains_app_r (needle a b : string) :
  contains needle b = true -> contains needle (a +:+ b) = true.
Proof.
  intros (x & y & ->)%contains_spec. apply contains_spec.
  exists (a +:+ x), y. by rewrite append_assoc.
Qed.

(** A wordlist candidate is longer than the root, so it is not the root. *)
Lemma candidate_ne_root (domain c : string) :
  c ∈ wordlist_candidates domain -> c <> domain.
Proof.
  unfold wordlist_candidates. intros (sub & -> & _)%list_elem_of_fmap Heq.
  apply (f_equal String.length) in Heq.
  rewrite !string_length_app in Heq. simpl in Heq. lia.
Qed.

Lemma elem_of_wordlist_subdomains (idna_encode : string -> option string)
    (domain x : string) :
  x ∈ wordlist_subdomains idna_encode domain <->
  x ∈ wordlist_candidates domain
  /\ truthy (normalizeDomainForDNS idna_encode x) = true.
Proof.
  unfold wordlist_subdomains, wordlist_candidates.
  rewrite (elem_of_foldl_add _
             (fun sub => truthy (normalizeDomainForDNS idna_encode
                                   (sub +:+ "." +:+ domain)))
             (fun sub => sub +:+ "." +:+ domain)) by done.
  rewrite list_elem_of_fmap. split.
  - intros [H|(sub & Hsub & Hacc & ->)]; [by apply elem_of_empty in H |]. eauto.
  - intros ((sub & -> & Hsub) & Hacc). right. eauto.
Qed.

(** X7. The wordlist source keeps a candidate [sub.domain] exactly when
    the Normalizer accepts it, and keeps it as it was built, not in the
    form the Normalizer returns. A root with two consecutive dots yields no
    candidate at all. *)
Theorem wordlist_subdomains_spec (idna_encode : string -> option string)
    (domain : string) :
  (forall x,
     x ∈ wordlist_subdomains idna_encode domain <->
     x ∈ wordlist_candidates domain
     /\ exists out, normalizeDomainForDNS idna_encode x = Some out)
  /\ (contains ".." domain = true -> wordlist_subdomains idna_encode domain = ∅).
Proof.
  pose proof (elem_of_wordlist_subdomains idna_encode domain) as Hmem.
  split.
  - intros x. rewrite Hmem. split; intros [Hx Hacc]; (split; [done |]).
    + destruct (normalizeDomainForDNS idna_encode x) as [out|]; [by exists out | done].
    + destruct Hacc as [out Hout]. rewrite Hout. simpl.
      apply normalizeDomainForDNS_Some in Hout as (_ & _ & _ & _ & Hne & _).
      by rewrite Hne.
  - intros Hdots. apply set_eq. intros x. rewrite Hmem. split.
    + intros [(sub & -> & _)%list_elem_of_fmap Hacc]. exfalso.
      unfold normalizeDomainForDNS in Hacc.
      rewrite (contains_app_r ".." sub ("." +:+ domain)) in Hacc; [done |].
      by apply (contains_app_r ".." ".").
    + intros H. by apply elem_of_empty in H.
Qed.

Lemma wordlist_subdomains_spec_witness :
  wordlist_subdomains idna_ldh "a..b" = ∅.
Proof. apply (proj2 (wordlist_subdomains_spec idna_ldh "a..b")). reflexivity. Defined.

Lemma elem_of_add_crtsh_subdomains (idna_encode : string -> option string)
    (domain : string) (crtsh_subdomains : list string) (discovered : gset string)
    (x : string) :
  x ∈ add_crtsh_subdomains idna_encode domain crtsh_subdomains discovered <->
  x ∈ discovered
  \/ (x ∈ crtsh_subdomains /\ x <> domain
      /\ truthy (normalizeDomainForDNS idna_encode x) = true).
Proof.
  unfold add_crtsh_subdomains.
  rewrite (elem_of_foldl_add _
             (fun sub => negb (String.eqb sub domain)
                         && truthy (normalizeDomainForDNS idna_encode sub))
             (fun sub => sub)) by done.
  split; (intros [H|H]; [by left | right]).
  - destruct H as (sub & Hsub & [Hne Hacc]%andb_true_iff & ->).
    apply negb_true_iff, String.eqb_neq in Hne. done.
  - destruct H as (Hx & Hne & Hacc). exists x. split; [done |]. split; [|done].
    apply String.eqb_neq in Hne. by rewrite Hne, Hacc.
Qed.

(** X8. The set of discovered subdomains that [run_dns_enum] builds holds
    the wordlist candidates that the Normalizer accepts and the certificate
    names, other than the root, that it accepts; it never holds the root
    domain itself. *)
Theorem discovered_subdomains_spec (idna_encode : string -> option string)
    (domain : string) (crtsh_subdomains : list string) :
  let discovered :=
    add_crtsh_subdomains idna_encode domain crtsh_subdomains
      (wordlist_subdomains idna_encode domain) in
  (forall x,
     x ∈ discovered <->
     (x ∈ wordlist_candidates domain \/ (x ∈ crtsh_subdomains /\ x <> domain))
     /\ truthy (normalizeDomainForDNS idna_encode x) = true)
  /\ domain ∉ discovered.
Proof.
  pose proof (elem_of_wordlist_subdomains idna_encode domain) as Hwords.
  intros discovered. split.
  - intros x. unfold discovered. rewrite elem_of_add_crtsh_subdomains, Hwords. tauto.
  - unfold discovered. rewrite elem_of_add_crtsh_subdomains, Hwords.
    intros [[Hc _]|(_ & Hne & _)]; [by apply candidate_ne_root in Hc | done].
Qed.

(** ** Further properties: node observations *)

(** X9. Observing a value again, in any spelling with the same normalized
    form and under any type or label, right after it was observed returns
    the same id and changes nothing. *)
Theorem add_node_reobserve (st : EnumState) (t t' : node_type) (v v' : string)
    (l l' : option string) :
  normalize_value v' = normalize_value v ->
  add_node t' v' l' (snd (add_node t v l st))
  = (fst (add_node t v l st), snd (add_node t v l st)).
Proof.
  intros Hnorm.
  destruct (node_map st !! normalize_value v) as [i|] eqn:Hv.
  - rewrite (add_node_known _ _ _ _ _ Hv). cbn [fst snd].
    apply add_node_known. by rewrite Hnorm.
  - rewrite (add_node_fresh _ _ _ _ Hv). cbn [fst snd].
    apply add_node_known. rewrite Hnorm. cbn [node_map]. apply lookup_insert_eq.
Qed.

Lemma add_node_reobserve_witness :
  add_node MailServer " Mail.Example.com " None
    (snd (add_node Domain "mail.example.com" None initial_state))
  = (fst (add_node Domain "mail.example.com" None initial_state),
     snd (add_node Domain "mail.example.com" None initial_state)).
Proof.
  apply (add_node_reobserve initial_state Domain MailServer
           "mail.example.com" " Mail.Example.com " None None).
  vm_compute. reflexivity.
Defined.

(** ** Further properties: host names taken from records *)

Lemma lstrip_by_head (p : ascii -> bool) (s : string) :
  match lstrip_by p s with String c _ => p c = false | EmptyString => True end.
Proof.
  induction s as [|c s IH]; simpl; [done |].
  destruct (p c) eqn:Hc; [done | by simpl].
Qed.

Lemma strip_by_head (p : ascii -> bool) (s : string) :
  match strip_by p s with String c _ => p c = false | EmptyString => True end.
Proof.
  unfold strip_by. pose proof (lstrip_by_head p s) as H.
  destruct (lstrip_by p s) as [|c r]; [done |].
  destruct (rstrip_head p c r) as [->|[r' ->]]; done.
Qed.

Lemma rstrip_by_last (p : ascii -> bool) (s a : string) (c : ascii) :
  rstrip_by p s = a +:+ String c EmptyString -> p c = false.
Proof.
  revert a. induction s as [|x s IH]; intros a; simpl.
  - destruct a; discriminate.
  - destruct (rstrip_by p s) as [|y r] eqn:Hr.
    + destruct (p x) eqn:Hx; [destruct a; discriminate |].
      destruct a as [|z a]; simpl; [congruence |].
      intros [= _ H]. destruct a; discriminate.
    + destruct a as [|z a]; simpl; [discriminate |].
      intros [= _ H]. by eapply IH.
Qed.

Lemma lower_snoc_inv (s x : string) (d : ascii) :
  lower s = x +:+ String d EmptyString ->
  exists a c, s = a +:+ String c EmptyString /\ lower_char c = d.
Proof.
  revert x. induction s as [|c s IH]; intros x; simpl.
  - destruct x; discriminate.
  - destruct x as [|y x]; simpl.
    + intros [= Hc Hs]. destruct s; [|discriminate]. by exists EmptyString, c.
    + intros [= Hc Hs]. destruct (IH _ Hs) as (a & c' & -> & Hc').
      by exists (String c a), c'.
Qed.

(** The host name read from a record is lower-case and neither starts nor
    ends with a dot. *)
Lemma lower_strip_dots (s : string) :
  let h := lower (strip_chars "." s) in
  lower h = h
  /\ ~ (exists t, h = "." +:+ t)
  /\ ~ (exists t, h = t +:+ ".").
Proof.
  intros h. split; [apply lower_idem |]. split.
  - intros [t Ht]. unfold h, strip_chars in Ht.
    pose proof (strip_by_head (fun c => char_in c ".") s) as Hhead.
    destruct (strip_by _ s) as [|c r]; [discriminate |].
    simpl in Ht. injection Ht as Hc _.
    assert (Ascii.eqb c "." = true) as Hdot
      by (rewrite <- dot_lower_char, Hc; reflexivity).
    simpl in Hhead. by rewrite Hdot in Hhead.
  - intros [t Ht]. unfold h, strip_chars in Ht.
    apply lower_snoc_inv in Ht as (a & c & Hs & Hc).
    apply rstrip_by_last in Hs.
    assert (Ascii.eqb c "." = true) as Hdot
      by (rewrite <- dot_lower_char, Hc; reflexivity).
    simpl in Hs. by rewrite Hdot in Hs.
Qed.

Lemma isspace_not_digit (c : ascii) : isspace c = true -> isdigit c = false.
Proof. destruct c as [[] [] [] [] [] [] [] []]; simpl; done. Qed.

Lemma length_nonempty (s : string) :
  s <> EmptyString -> (String.length s =? 0) = false.
Proof. by destruct s. Qed.

(** X10. From an MX record of the form priority, whitespace, host,
    [mx_hostname_of] takes the host, without the dots around it and
    lower-cased; a record that does not start with a digit is taken whole.
    The result is always lower-case and neither starts nor ends with a
    dot. *)
Theorem mx_hostname_of_spec :
  (forall prio ws host,
     all_chars isdigit prio = true -> prio <> EmptyString ->
     all_chars isspace ws = true -> ws <> EmptyString ->
     all_chars (fun c => negb (isspace c)) host = true ->
     mx_hostname_of (prio +:+ ws +:+ host) = lower (strip_chars "." host))
  /\ (forall record,
        match record with String c _ => isdigit c = false | EmptyString => True end ->
        mx_hostname_of record = lower (strip_chars "." record))
  /\ (forall record,
        lower (mx_hostname_of record) = mx_hostname_of record
        /\ ~ (exists t, mx_hostname_of record = "." +:+ t)
        /\ ~ (exists t, mx_hostname_of record = t +:+ ".")).
Proof.
  split; [|split].
  - intros prio ws host Hprio Hprio_ne Hws Hws_ne Hhost.
    unfold mx_hostname_of, re_match_mx.
    rewrite (span_all isdigit prio (ws +:+ host) Hprio).
    2:{ destruct ws as [|c ws]; [done |]. simpl in *.
        apply andb_true_iff in Hws as [Hc _]. by apply isspace_not_digit. }
    rewrite (length_nonempty prio Hprio_ne).
    rewrite (span_all isspace ws host Hws).
    2:{ destruct host as [|c host]; [done |]. simpl in *.
        apply andb_true_iff in Hhost as [Hc _]. by apply negb_true_iff. }
    rewrite (length_nonempty ws Hws_ne).
    rewrite <- (append_nil_r host) at 1.
    rewrite (span_all (fun c => negb (Ascii.eqb c LF)) host EmptyString); [done | | done].
    clear -Hhost. induction host as [|c host IH]; simpl in *; [done |].
    apply andb_true_iff in Hhost as [Hc Hhost]. rewrite (IH Hhost), andb_true_r.
    destruct (Ascii.eqb_spec c LF) as [->|]; [by vm_compute in Hc | done].
  - intros record Hhead. unfold mx_hostname_of, re_match_mx.
    destruct record as [|c r]; [done |]. simpl. by rewrite Hhead.
  - intros record. unfold mx_hostname_of.
    destruct (re_match_mx record) as [g|]; apply lower_strip_dots.
Qed.

Lemma mx_hostname_of_spec_witness :
  mx_hostname_of ("10" +:+ " " +:+ "Mail.Example.COM.")
  = lower (strip_chars "." "Mail.Example.COM.").
Proof. by apply (proj1 mx_hostname_of_spec). Defined.

(** ** The traversal, stage by stage, for an arbitrary invariant *)

Lemma add_root_node (d : string) :
  normalize_value d = d ->
  add_node Domain d (Some d) initial_state
  = (Return 0,
     {| nodes := [root_node d]; links := []; node_map := {[ d := 0 ]};
        next_node_id := 1; net_log := [] |}).
Proof.
  intros Hd. rewrite add_node_fresh by (rewrite Hd; apply lookup_empty).
  rewrite Hd, label_or_same. reflexivity.
Qed.

Lemma run_dns_enum_body_start (idna_encode : string -> option string)
    (globals : Globals) (w : World) (domain : string) :
  run_dns_enum_body idna_encode globals w domain initial_state
  = enum_from_records idna_encode globals w (normalize_value domain) 0
      (fst (get_dns_records w (normalize_value domain) []))
      (state_after_fetch w (normalize_value domain)).
Proof.
  unfold run_dns_enum_body. fold (normalize_value domain).
  pose proof (normalize_value_idem domain) as Hd.
  revert Hd. generalize (normalize_value domain). intros d Hd.
  cbv zeta.
  erewrite bind_return by (by apply add_root_node).
  erewrite bind_return; cycle 1.
  { unfold await. cbn [net_log].
    rewrite (surjective_pairing (get_dns_records w d [])). reflexivity. }
  reflexivity.
Qed.

Section StageRules.

Variable globals : Globals.
Variable w : World.
Variable I : EnumState -> Prop.
Variable E : exn -> EnumState -> Prop.
Variable OK : nat -> link_type -> Prop.
Variable main : nat.
Hypothesis rules : stage_rules globals w I E OK.
Hypothesis policy : link_policy OK main.

Lemma rule_node t v st : I st -> wp (add_node t v None) (fun _ => I) E st.
Proof. apply rules. Qed.

Lemma rule_link s t ty st : OK s ty -> I st -> wp (add_link s t ty) (fun _ => I) E st.
Proof. apply rules. Qed.

Lemma rule_main_link t ty st : I st -> wp (add_link main t ty) (fun _ => I) E st.
Proof. intros H. apply rule_link; [apply policy | done]. Qed.

Lemma stage_link_ptr (ip : string) (ip_id : nat) (owner : string) st :
  I st -> wp (link_ptr w ip ip_id owner) (fun _ => I) E st.
Proof.
  intros H. unfold link_ptr.
  eapply wp_bind; [by apply rules |]. intros hostname st1 H1; cbv beta in H1.
  destruct hostname as [h|]; [|by apply wp_ret].
  destruct (negb (String.eqb h EmptyString) && negb (String.eqb (lower h) owner));
    [|by apply wp_ret].
  eapply wp_bind; [by apply rule_node |]. intros hostname_id st2 H2; cbv beta in H2.
  apply rule_link; [apply policy | done].
Qed.

Lemma stage_address (ip : string) (owner_id : nat) (owner : string) st :
  I st ->
  wp (ip_id ← add_node IPv4 ip None;
      add_link owner_id ip_id A_record;;
      link_ptr w ip ip_id owner)
     (fun _ => I) E st.
Proof.
  intros H.
  eapply wp_bind; [by apply rule_node |]. intros ip_id st1 H1; cbv beta in H1.
  eapply wp_bind; [apply rule_link; [apply policy | exact H1] |].
  intros [] st2 H2; cbv beta in H2. by apply stage_link_ptr.
Qed.

Lemma stage_link_server_ip (hostname : string) (server_id : nat) st :
  I st -> wp (link_server_ip globals w hostname server_id) (fun _ => I) E st.
Proof.
  intros H. unfold link_server_ip.
  eapply wp_bind; [by apply rules |]. intros server_ip st1 H1; cbv beta in H1.
  destruct server_ip as [ip|]; [|by apply wp_ret].
  destruct (String.eqb ip EmptyString); [by apply wp_ret |].
  by apply stage_address.
Qed.

Lemma stage_a_records (domain : string) (rs : Records) st :
  I st -> wp (a_records w domain main rs) (fun _ => I) E st.
Proof.
  intros H. unfold a_records. apply wp_for_each; [|done].
  intros ip st0 _ H0. by apply stage_address.
Qed.

Lemma stage_aaaa_records (rs : Records) st :
  I st -> wp (aaaa_records main rs) (fun _ => I) E st.
Proof.
  intros H. unfold aaaa_records. apply wp_for_each; [|done].
  intros ip st0 _ H0.
  eapply wp_bind; [by apply rule_node |]. intros ip_id st1 H1; cbv beta in H1.
  by apply rule_main_link.
Qed.

Lemma stage_server (t : node_type) (ty : link_type) (name : string) st :
  I st ->
  wp (server_id ← add_node t name None;
      add_link main server_id ty;;
      link_server_ip globals w name server_id)
     (fun _ => I) E st.
Proof.
  intros H.
  eapply wp_bind; [by apply rule_node |]. intros server_id st1 H1; cbv beta in H1.
  eapply wp_bind; [by apply rule_main_link |]. intros [] st2 H2; cbv beta in H2.
  by apply stage_link_server_ip.
Qed.

Lemma stage_mx_records (rs : Records) st :
  I st -> wp (mx_records globals w main rs) (fun _ => I) E st.
Proof.
  intros H. unfold mx_records. apply wp_for_each; [|done].
  intros mx st0 _ H0. by apply stage_server.
Qed.

Lemma stage_ns_records (rs : Records) st :
  I st -> wp (ns_records globals w main rs) (fun _ => I) E st.
Proof.
  intros H. unfold ns_records. apply wp_for_each; [|done].
  intros ns st0 _ H0. by apply stage_server.
Qed.

Lemma stage_cname_records (domain : string) (rs : Records) st :
  I st -> wp (cname_records globals domain main rs) (fun _ => I) E st.
Proof.
  intros H. unfold cname_records. apply wp_for_each; [|done].
  intros [name target] st0 _ H0. cbn [fst snd].
  eapply wp_bind; [by apply rule_node |]. intros origin_id st1 H1; cbv beta in H1.
  eapply wp_bind; [by apply rule_node |]. intros target_id st2 H2; cbv beta in H2.
  eapply wp_bind; [apply rule_link; [apply policy | exact H2] |].
  intros [] st3 H3; cbv beta in H3.
  eapply wp_bind.
  { instantiate (1 := fun _ => I).
    destruct (String.eqb _ domain); [by apply rule_main_link | by apply wp_ret]. }
  intros [] st4 H4; cbv beta in H4.
  eapply wp_bind; [by apply rules |]. intros target_ip st5 H5; cbv beta in H5.
  destruct target_ip as [ip|]; [|by apply wp_ret].
  destruct (String.eqb ip EmptyString); [by apply wp_ret |].
  eapply wp_bind; [by apply rule_node |]. intros ip_id st6 H6; cbv beta in H6.
  apply rule_link; [apply policy | done].
Qed.

Lemma stage_subdomain_step (domain subdomain : string) st :
  I st -> wp (subdomain_step globals w domain main subdomain) (fun _ => I) E st.
Proof.
  intros H. unfold subdomain_step.
  destruct (negb (String.eqb subdomain domain)); [|by apply wp_ret].
  eapply wp_bind; [by apply rule_node |]. intros sub_id st1 H1; cbv beta in H1.
  eapply wp_bind; [by apply rule_main_link |]. intros [] st2 H2; cbv beta in H2.
  eapply wp_bind; [by apply stage_link_server_ip |].
  intros [] st3 H3; cbv beta in H3. by apply wp_ret.
Qed.

Lemma stage_subdomain_nodes (domain : string) (discovered : gset string) st :
  I st -> wp (subdomain_nodes globals w domain main discovered) (fun _ => I) E st.
Proof.
  intros H. unfold subdomain_nodes. apply wp_for_each; [|done].
  intros subdomain st0 _ H0. by apply stage_subdomain_step.
Qed.

(** The stages before the TXT attribute is attached. *)
Lemma stage_before_txt (domain : string) (rs : Records) (k : M graph_data) (R : graph_data -> EnumState -> Prop) st :
  I st ->
  (forall st', I st' -> wp k R E st') ->
  wp (a_records w domain main rs;; aaaa_records main rs;;
      mx_records globals w main rs;; ns_records globals w main rs;; k) R E st.
Proof.
  intros H Hk.
  eapply wp_bind; [by apply stage_a_records |]. intros [] st1 H1; cbv beta in H1.
  eapply wp_bind; [by apply stage_aaaa_records |]. intros [] st2 H2; cbv beta in H2.
  eapply wp_bind; [by apply stage_mx_records |]. intros [] st3 H3; cbv beta in H3.
  eapply wp_bind; [by apply stage_ns_records |]. intros [] st4 H4; cbv beta in H4.
  by apply Hk.
Qed.

End StageRules.

Lemma wp_graph_of_state (I : EnumState -> Prop) (E : exn -> EnumState -> Prop) st :
  I st ->
  wp graph_of_state
     (fun g st' => I st' /\ g = {| graph_nodes := nodes st'; graph_links := links st' |})
     E st.
Proof. intros H. unfold wp, graph_of_state. done. Qed.

(** The traversal after the fetch, for an invariant [I0] that the TXT
    stage turns into [I1] and the subdomain loop into [I2]. *)
Lemma wp_enum_from_records (idna_encode : string -> option string) (globals : Globals)
    (w : World) (d : string) (main : nat) (rs : Records)
    (I0 I1 I2 : EnumState -> Prop) (E : exn -> EnumState -> Prop)
    (OK : nat -> link_type -> Prop) st :
  stage_rules globals w I0 E OK ->
  stage_rules globals w I1 E OK ->
  link_policy OK main ->
  (forall st', I0 st' -> wp (txt_records main rs) (fun _ => I1) E st') ->
  (forall st', I1 st' -> wp (await (discover_subdomains_crtsh w d)) (fun _ => I1) E st') ->
  (forall crt st', I1 st' ->
     wp (subdomain_nodes globals w d main
           (add_crtsh_subdomains idna_encode d crt (wordlist_subdomains idna_encode d)))
        (fun _ => I2) E st') ->
  I0 st ->
  wp (enum_from_records idna_encode globals w d main rs)
     (fun g st' => I2 st' /\ g = {| graph_nodes := nodes st'; graph_links := links st' |})
     E st.
Proof.
  intros R0 R1 Hpol Htxt Hcrt Hsub H0. unfold enum_from_records.
  eapply stage_before_txt; [exact R0 | exact Hpol | exact H0 |].
  intros st1 H1.
  eapply wp_bind; [by apply Htxt |]. intros [] st2 H2; cbv beta in H2.
  eapply wp_bind; [by eapply stage_cname_records |]. intros [] st3 H3; cbv beta in H3.
  eapply wp_bind; [by apply Hcrt |]. intros crt st4 H4; cbv beta in H4.
  eapply wp_bind; [by apply Hsub |]. intros [] st5 H5; cbv beta in H5.
  by apply wp_graph_of_state.
Qed.

(** The same with one invariant kept throughout. *)
Lemma wp_enum_from_records_inv (idna_encode : string -> option string)
    (globals : Globals) (w : World) (d : string) (main : nat) (rs : Records)
    (I : EnumState -> Prop) (E : exn -> EnumState -> Prop)
    (OK : nat -> link_type -> Prop) st :
  stage_rules globals w I E OK ->
  link_policy OK main ->
  (forall st', I st' -> wp (txt_records main rs) (fun _ => I) E st') ->
  (forall st', I st' -> wp (await (discover_subdomains_crtsh w d)) (fun _ => I) E st') ->
  I st ->
  wp (enum_from_records idna_encode globals w d main rs)
     (fun g st' => I st' /\ g = {| graph_nodes := nodes st'; graph_links := links st' |})
     E st.
Proof.
  intros R Hpol Htxt Hcrt H0.
  eapply wp_enum_from_records; try done.
  intros crt st' H'. by eapply stage_subdomain_nodes.
Qed.

(** From the traversal to a call of [run_dns_enum]. *)
Lemma run_dns_enum_wp (idna_encode : string -> option string) (globals : Globals)
    (w : World) (domain : string) (Q : graph_data -> EnumState -> Prop)
    (E : exn -> EnumState -> Prop) :
  wp (enum_from_records idna_encode globals w (normalize_value domain) 0
        (fst (get_dns_records w (normalize_value domain) [])))
     Q E (state_after_fetch w (normalize_value domain)) ->
  match run_dns_enum idna_encode globals w domain with
  | (Return g, log) => exists st, Q g st /\ log = net_log st
  | (Raise e, log) => exists st, E e st /\ log = net_log st
  end.
Proof.
  unfold run_dns_enum, wp. rewrite run_dns_enum_body_start.
  destruct (enum_from_records _ _ _ _ _ _ _) as [[g|e] st]; eauto.
Qed.

(** An invariant that does not read the log is kept by every network
    step, whatever the resolver. *)
Lemma stage_rules_pure (globals : Globals) (w : World) (I : EnumState -> Prop)
    (OK : nat -> link_type -> Prop) :
  log_independent I ->
  (forall t v st, I st -> wp (add_node t v None) (fun _ => I) (fun _ _ => True) st) ->
  (forall s t ty st, OK s ty -> I st ->
     wp (add_link s t ty) (fun _ => I) (fun _ _ => True) st) ->
  stage_rules globals w I (fun _ _ => True) OK.
Proof.
  intros Hlog Hnode Hlink. split; [done |]. split; [done |]. split.
  - intros ip st H. apply wp_await. intros log'. by apply Hlog.
  - intros name st H. unfold call_resolver.
    destruct (run_port_scan_resolve_domain_to_ip globals) as [f|]; [|done].
    apply wp_await. intros log'. by apply Hlog.
Qed.

Lemma wp_await_pure {A : Type} (c : Net A) (I : EnumState -> Prop)
    (E : exn -> EnumState -> Prop) st :
  log_independent I -> I st -> wp (await c) (fun _ => I) E st.
Proof. intros Hlog H. apply wp_await. intros log'. by apply Hlog. Qed.

(** ** The TXT attribute *)

Lemma txt_state_log t : log_independent (txt_state t).
Proof. intros st log' H. exact H. Qed.

Lemma txt_state_add_node (t : option string) (ty : node_type) (v : string)
    (E : exn -> EnumState -> Prop) st :
  txt_state t st -> wp (add_node ty v None) (fun _ => txt_state t) E st.
Proof.
  intros (root & rest & Hn & Hid & Htxt & Hrest). unfold wp, add_node.
  destruct (node_map st !! normalize_value v); [by exists root, rest |].
  exists root, (rest ++ [{| node_id := next_node_id st; node_type_of := ty;
                            node_value := normalize_value v;
                            node_label := label_or None v;
                            node_txt_records := None |}]).
  cbn [nodes]. rewrite Hn. split; [done |]. split; [done |]. split; [done |].
  apply Forall_app. split; [done |]. by constructor.
Qed.

Lemma txt_state_add_link (t : option string) (s i : nat) (ty : link_type)
    (E : exn -> EnumState -> Prop) st :
  txt_state t st -> wp (add_link s i ty) (fun _ => txt_state t) E st.
Proof. intros H. exact H. Qed.

Lemma txt_state_rules (t : option string) (globals : Globals) (w : World) :
  stage_rules globals w (txt_state t) (fun _ _ => True) (fun _ _ => True).
Proof.
  apply stage_rules_pure.
  - apply txt_state_log.
  - intros ty v st H. by apply txt_state_add_node.
  - intros s i ty st _ H. by apply txt_state_add_link.
Qed.

Lemma txt_state_txt_records (rs : Records) (E : exn -> EnumState -> Prop) st :
  txt_state None st -> wp (txt_records 0 rs) (fun _ => txt_state (txt_of rs)) E st.
Proof.
  intros (root & rest & Hn & Hid & Htxt & Hrest). unfold txt_records, txt_of.
  destruct (rec_TXT rs) as [|t ts]; [by exists root, rest |].
  unfold wp, attach_txt, txt_state. cbn [nodes]. rewrite Hn. cbn [set_txt_records].
  rewrite Hid. cbn [Nat.eqb]. eexists _, rest. split; [reflexivity |]. done.
Qed.

Lemma policy_any (main : nat) : link_policy (fun _ _ => True) main.
Proof. done. Qed.

(** X11. In every graph that [run_dns_enum] returns, the first node is the
    root, with id 0; it carries the TXT records of the root joined by
    newlines when there is at least one, and no TXT attribute otherwise; no
    other node carries a TXT attribute. *)
Theorem run_dns_enum_txt_records (idna_encode : string -> option string)
    (globals : Globals) (w : World) (domain : string) (g : graph_data)
    (log : list Request) :
  run_dns_enum idna_encode globals w domain = (Return g, log) ->
  exists root rest,
    graph_nodes g = root :: rest
    /\ node_id root = 0
    /\ node_txt_records root
       = txt_of (fst (get_dns_records w (normalize_value domain) []))
    /\ Forall (fun n => node_txt_records n = None) rest.
Proof.
  intros Hrun.
  pose proof (run_dns_enum_wp idna_encode globals w domain
                (fun g st => txt_state (txt_of (fst (get_dns_records w
                                 (normalize_value domain) []))) st
                             /\ g = {| graph_nodes := nodes st;
                                       graph_links := links st |})
                (fun _ _ => True)) as H.
  rewrite Hrun in H. destruct H as (st & [Hst ->] & _); [|exact Hst].
  eapply wp_enum_from_records with (I0 := txt_state None) (OK := fun _ _ => True).
  - apply txt_state_rules.
  - apply txt_state_rules.
  - apply policy_any.
  - intros st' H'. by apply txt_state_txt_records.
  - intros st' H'. apply wp_await_pure; [apply txt_state_log | done].
  - intros crt st' H'.
    eapply stage_subdomain_nodes; [apply txt_state_rules | apply policy_any | done].
  - exists (root_node (normalize_value domain)), []. done.
Qed.

Lemma run_dns_enum_txt_records_witness :
  exists g log,
    run_dns_enum idna_ldh (linked_globals txt_world) txt_world "example.com"
      = (Return g, log)
    /\ exists root rest,
         graph_nodes g = root :: rest
         /\ node_id root = 0
         /\ node_txt_records root
            = txt_of (fst (get_dns_records txt_world (normalize_value "example.com") []))
         /\ Forall (fun n => node_txt_records n = None) rest.
Proof.
  eexists _, _. split; [vm_compute; reflexivity |].
  eapply (run_dns_enum_txt_records idna_ldh (linked_globals txt_world) txt_world
            "example.com").
  vm_compute. reflexivity.
Defined.

(** ** Links that only the root issues *)

Lemma links_rooted_log main : log_independent (links_rooted main).
Proof. intros st log' H. exact H. Qed.

Lemma links_rooted_add_node (main : nat) (ty : node_type) (v : string)
    (E : exn -> EnumState -> Prop) st :
  links_rooted main st -> wp (add_node ty v None) (fun _ => links_rooted main) E st.
Proof.
  intros H. unfold wp, add_node.
  by destruct (node_map st !! normalize_value v).
Qed.

Lemma links_rooted_add_link (main s t : nat) (ty : link_type)
    (E : exn -> EnumState -> Prop) st :
  (root_link ty = true -> s = main) ->
  links_rooted main st -> wp (add_link s t ty) (fun _ => links_rooted main) E st.
Proof.
  intros Hok H. unfold wp, add_link, links_rooted. cbn [links].
  intros l [Hl| ->%list_elem_of_singleton]%elem_of_app; [by apply H | exact Hok].
Qed.

Lemma links_rooted_rules (main : nat) (globals : Globals) (w : World) :
  stage_rules globals w (links_rooted main) (fun _ _ => True)
    (fun s ty => root_link ty = true -> s = main).
Proof.
  apply stage_rules_pure.
  - apply links_rooted_log.
  - intros ty v st H. by apply links_rooted_add_node.
  - intros s t ty st Hok H. by apply links_rooted_add_link.
Qed.

Lemma links_rooted_policy (main : nat) :
  link_policy (fun s ty => root_link ty = true -> s = main) main.
Proof. split; [done |]. intros s. by repeat split. Qed.

Lemma links_rooted_txt_records (main i : nat) (rs : Records)
    (E : exn -> EnumState -> Prop) st :
  links_rooted main st -> wp (txt_records i rs) (fun _ => links_rooted main) E st.
Proof. intros H. unfold txt_records. by destruct (rec_TXT rs). Qed.

(** X12. In every graph that [run_dns_enum] returns, a link of type
    AAAA_record, MX_record, NS_record, CNAME_alias or has_subdomain has the
    root node, id 0, as its source. *)
Theorem run_dns_enum_root_links (idna_encode : string -> option string)
    (globals : Globals) (w : World) (domain : string) (g : graph_data)
    (log : list Request) :
  run_dns_enum idna_encode globals w domain = (Return g, log) ->
  forall l, l ∈ graph_links g -> root_link (link_type_of l) = true -> link_source l = 0.
Proof.
  intros Hrun.
  pose proof (run_dns_enum_wp idna_encode globals w domain
                (fun g st => links_rooted 0 st
                             /\ g = {| graph_nodes := nodes st;
                                       graph_links := links st |})
                (fun _ _ => True)) as H.
  rewrite Hrun in H. destruct H as (st & [Hst ->] & _); [|exact Hst].
  eapply wp_enum_from_records_inv.
  - apply links_rooted_rules.
  - apply links_rooted_policy.
  - intros st' H'. by apply links_rooted_txt_records.
  - intros st' H'. apply wp_await_pure; [apply links_rooted_log | done].
  - intros l Hl. by apply elem_of_nil in Hl.
Qed.

Lemma run_dns_enum_root_links_witness :
  exists g log,
    run_dns_enum idna_ldh (linked_globals example_world) example_world "example.com"
      = (Return g, log)
    /\ forall l, l ∈ graph_links g -> root_link (link_type_of l) = true ->
         link_source l = 0.
Proof.
  eexists _, _. split; [vm_compute; reflexivity |].
  eapply (run_dns_enum_root_links idna_ldh (linked_globals example_world) example_world
            "example.com").
  vm_compute. reflexivity.
Defined.

(** ** Values and labels *)

Lemma nodes_normal_log : log_independent nodes_normal.
Proof. intros st log' H. exact H. Qed.

Lemma nodes_normal_add_node (ty : node_type) (v : string)
    (E : exn -> EnumState -> Prop) st :
  nodes_normal st -> wp (add_node ty v None) (fun _ => nodes_normal) E st.
Proof.
  intros H. unfold wp, add_node.
  destruct (node_map st !! normalize_value v); [done |].
  unfold nodes_normal. cbn [nodes]. apply Forall_app. split; [done |].
  constructor; [|done]. split; cbn [node_value node_label label_or]; [|done].
  apply normalize_value_idem.
Qed.

Lemma nodes_normal_rules (globals : Globals) (w : World) :
  stage_rules globals w nodes_normal (fun _ _ => True) (fun _ _ => True).
Proof.
  apply stage_rules_pure.
  - apply nodes_normal_log.
  - intros ty v st H. by apply nodes_normal_add_node.
  - intros s t ty st _ H. exact H.
Qed.

Lemma nodes_normal_txt_records (i : nat) (rs : Records)
    (E : exn -> EnumState -> Prop) st :
  nodes_normal st -> wp (txt_records i rs) (fun _ => nodes_normal) E st.
Proof.
  intros H. unfold txt_records. destruct (rec_TXT rs) as [|t ts]; [done |].
  unfold wp, attach_txt, nodes_normal. cbn [nodes].
  pose proof (set_txt_records_identity i (join (String LF EmptyString) (t :: ts))
                (nodes st)) as Hid.
  unfold nodes_normal in H. revert H.
  induction Hid as [|n n' l l' (_ & _ & Hv & Hl) _ IH]; [done |].
  intros [Hn Hrest]%Forall_cons. constructor; [|by apply IH].
  unfold node_normal in *. by rewrite <- Hv, <- Hl.
Qed.

(** X13. In every graph that [run_dns_enum] returns, the value of a node
    is in normal form (lower-case, no surrounding whitespace), and its
    label, lower-cased and stripped, is its value: the label is the first
    spelling under which the value was observed. *)
Theorem run_dns_enum_values_normal (idna_encode : string -> option string)
    (globals : Globals) (w : World) (domain : string) (g : graph_data)
    (log : list Request) :
  run_dns_enum idna_encode globals w domain = (Return g, log) ->
  forall n, n ∈ graph_nodes g ->
    normalize_value (node_value n) = node_value n
    /\ normalize_value (node_label n) = node_value n.
Proof.
  intros Hrun.
  pose proof (run_dns_enum_wp idna_encode globals w domain
                (fun g st => nodes_normal st
                             /\ g = {| graph_nodes := nodes st;
                                       graph_links := links st |})
                (fun _ _ => True)) as H.
  rewrite Hrun in H. destruct H as (st & [Hst ->] & _).
  - eapply wp_enum_from_records_inv.
    + apply nodes_normal_rules.
    + apply policy_any.
    + intros st' H'. by apply nodes_normal_txt_records.
    + intros st' H'. apply wp_await_pure; [apply nodes_normal_log | done].
    + constructor; [|done]. split; apply normalize_value_idem.
  - intros n Hn. by apply (proj1 (Forall_forall _ _) Hst).
Qed.

Lemma run_dns_enum_values_normal_witness :
  exists g log,
    run_dns_enum idna_ldh (linked_globals example_world) example_world " Example.COM "
      = (Return g, log)
    /\ forall n, n ∈ graph_nodes g ->
         normalize_value (node_value n) = node_value n
         /\ normalize_value (node_label n) = node_value n.
Proof.
  eexists _, _. split; [vm_compute; reflexivity |].
  eapply (run_dns_enum_values_normal idna_ldh (linked_globals example_world)
            example_world " Example.COM ").
  vm_compute. reflexivity.
Defined.

(** ** The requests of an enumeration *)

Lemma get_dns_records_log (w : World) (domain : string) (log : list Request) :
  snd (get_dns_records w domain log) = dns_log log domain 7.
Proof.
  unfold get_dns_records, query_types. cbn [net_fold].
  unfold mbind, Net_bind. rewrite !fetch_record_type_eq.
  unfold dns_log, query_types, mret, Net_ret.
  cbn [take fmap list_fmap snd]. rewrite <- !app_assoc. reflexivity.
Qed.

Lemma wp_await_log {A : Type} (c : Net A) (p : list Request)
    (E : exn -> EnumState -> Prop) st :
  (forall log, exists more,
     snd (c log) = log ++ more /\ Forall (fun r => is_tcp r = false) more) ->
  log_from p st -> wp (await c) (fun _ => log_from p) E st.
Proof.
  intros Hc (rest & Hlog & Hrest). unfold wp, await.
  destruct (Hc (net_log st)) as (more & Hmore & Hsafe).
  destruct (c (net_log st)) as [a log']. cbn [snd] in Hmore. subst log'.
  exists (rest ++ more). cbn [net_log]. rewrite Hlog, app_assoc. split; [done |].
  by apply Forall_app.
Qed.

Lemma perform_reverse_dns_lookup_log (w : World) (ip : string) (log : list Request) :
  snd (perform_reverse_dns_lookup w ip log) = log ++ [ReverseLookup ip].
Proof.
  unfold perform_reverse_dns_lookup, mbind, Net_bind, socket_gethostbyaddr.
  by destruct (gethostbyaddr w log ip).
Qed.

Lemma resolve_domain_to_ip_log (w : World) (name : string) (log : list Request) :
  exists more,
    snd (resolve_domain_to_ip w name log) = log ++ more
    /\ Forall (fun r => is_tcp r = false) more.
Proof.
  destruct (is_valid_ipv4_address w name) eqn:Hip.
  - rewrite resolve_domain_to_ip_literal by done. exists []. by rewrite app_nil_r.
  - rewrite resolve_domain_to_ip_query by done. exists [DohQuery name QA].
    split; [done |]. by repeat constructor.
Qed.

Lemma log_from_add_node (p : list Request) (ty : node_type) (v : string)
    (E : exn -> EnumState -> Prop) st :
  log_from p st -> wp (add_node ty v None) (fun _ => log_from p) E st.
Proof.
  intros H. unfold wp, add_node. by destruct (node_map st !! normalize_value v).
Qed.

Lemma log_from_rules (p : list Request) (globals : Globals) (w : World) :
  globals = module_globals \/ globals = linked_globals w ->
  stage_rules globals w (log_from p) (fun _ => log_from p) (fun _ _ => True).
Proof.
  intros Hg. split; [|split; [|split]].
  - intros ty v st H. by apply log_from_add_node.
  - intros s t ty st _ H. exact H.
  - intros ip st H. apply wp_await_log; [|done].
    intros log. exists [ReverseLookup ip].
    split; [apply perform_reverse_dns_lookup_log | by repeat constructor].
  - intros name st H. destruct Hg as [-> | ->]; [exact H |].
    apply wp_await_log; [|done]. intros log. apply resolve_domain_to_ip_log.
Qed.

Lemma run_dns_enum_log_from (idna_encode : string -> option string)
    (globals : Globals) (w : World) (domain : string) :
  globals = module_globals \/ globals = linked_globals w ->
  enum_requests (normalize_value domain)
    (snd (run_dns_enum idna_encode globals w domain)).
Proof.
  intros Hg. set (d := normalize_value domain).
  pose proof (run_dns_enum_wp idna_encode globals w domain
                (fun g st => log_from (dns_log [] d 7) st
                             /\ g = {| graph_nodes := nodes st;
                                       graph_links := links st |})
                (fun _ => log_from (dns_log [] d 7))) as H.
  assert (forall r log, match r with
                        | Return g =>
                            exists st, (log_from (dns_log [] d 7) st
                                        /\ g = {| graph_nodes := nodes st;
                                                  graph_links := links st |})
                                       /\ log = net_log st
                        | Raise e =>
                            exists st, log_from (dns_log [] d 7) st /\ log = net_log st
                        end -> enum_requests d log) as Hfin.
  { intros [g|e] log (st & Hst & ->); [destruct Hst as [Hst _] |]; exact Hst. }
  destruct (run_dns_enum idna_encode globals w domain) as [r log]. cbn [snd].
  apply (Hfin r). destruct r; apply H.
  all: fold d; eapply wp_enum_from_records_inv;
    [ by apply log_from_rules
    | apply policy_any
    | intros st' H'; unfold txt_records; by destruct (rec_TXT _)
    | intros st' H'; apply wp_await_log; [|done]; intros log0;
      exists [CrtshQuery d]; rewrite discover_subdomains_crtsh_eq;
      split; [done | by repeat constructor]
    | exists []; unfold state_after_fetch; cbn [net_log];
      by rewrite get_dns_records_log, app_nil_r ].
Qed.

(** X14. Every call of [run_dns_enum], with the resolver name unbound as
    in the module or bound to [resolve_domain_to_ip], first issues the
    seven lookups of the normalized root, whatever follows, and never opens
    a TCP connection: the enumeration itself does no port scan, also when
    it ends in an exception. *)
Theorem run_dns_enum_requests (idna_encode : string -> option string) (w : World)
    (domain : string) :
  enum_requests (normalize_value domain)
    (snd (run_dns_enum idna_encode module_globals w domain))
  /\ enum_requests (normalize_value domain)
       (snd (run_dns_enum idna_encode (linked_globals w) w domain)).
Proof. split; apply run_dns_enum_log_from; [by left | by right]. Qed.

(** ** The unbound resolver name *)

Lemma wp_for_each_raises {A : Type} (l : list A) (body : A -> M unit)
    (E : exn -> EnumState -> Prop) :
  (forall x st, x ∈ l -> wp (body x) (fun _ _ => True) E st) ->
  (exists x, x ∈ l /\ forall st, wp (body x) (fun _ _ => False) E st) ->
  forall st, wp (for_each l body) (fun _ _ => False) E st.
Proof.
  induction l as [|x l IH]; intros Hall (y & Hy & Hraise) st.
  - by apply elem_of_nil in Hy.
  - cbn [for_each]. apply elem_of_cons in Hy as [-> | Hy].
    + eapply wp_bind; [apply Hraise |]. by intros [] st' [].
    + eapply wp_bind; [apply Hall; left |].
      intros [] st' _. apply IH; [|by exists y].
      intros z st0 Hz. apply Hall. by right.
Qed.

Lemma unbound_rules (w : World) :
  stage_rules module_globals w (fun _ => True) (fun e _ => unbound_resolver e)
    (fun _ _ => True).
Proof.
  split; [|split; [|split]].
  - intros ty v st _. unfold wp, add_node.
    by destruct (node_map st !! normalize_value v).
  - done.
  - intros ip st _. by apply wp_await.
  - done.
Qed.

Lemma subdomain_step_unbound (w : World) (d s : string) (main : nat) st :
  s <> d ->
  wp (subdomain_step module_globals w d main s) (fun _ _ => False)
     (fun e _ => unbound_resolver e) st.
Proof.
  intros Hne. unfold subdomain_step.
  apply String.eqb_neq in Hne. rewrite Hne. cbn [negb].
  eapply wp_bind; [by apply (unbound_rules w) |]. intros i st1 _.
  eapply wp_bind; [by apply (unbound_rules w) |]. intros [] st2 _.
  eapply wp_bind with (Q := fun _ _ => False); [|by intros [] st3 []].
  unfold link_server_ip.
  eapply wp_bind with (Q := fun _ _ => False); [|by intros o st3 []].
  unfold call_resolver, module_globals, wp, raise, unbound_resolver. reflexivity.
Qed.

Lemma truthy_normalizeDomainForDNS (idna_encode : string -> option string)
    (s out : string) :
  normalizeDomainForDNS idna_encode s = Some out ->
  truthy (normalizeDomainForDNS idna_encode s) = true.
Proof.
  intros Hout. rewrite Hout. simpl.
  apply normalizeDomainForDNS_Some in Hout as (_ & _ & _ & _ & Hne & _).
  by rewrite Hne.
Qed.

Lemma enum_from_records_unbound (idna_encode : string -> option string) (w : World)
    (d : string) (main : nat) (rs : Records) (c out : string) st :
  set_order_ok w ->
  c ∈ wordlist_candidates d ->
  normalizeDomainForDNS idna_encode c = Some out ->
  wp (enum_from_records idna_encode module_globals w d main rs)
     (fun g st' => False
                   /\ g = {| graph_nodes := nodes st'; graph_links := links st' |})
     (fun e _ => unbound_resolver e) st.
Proof.
  intros Horder Hc Hout.
  apply (wp_enum_from_records idna_encode module_globals w d main rs
           (fun _ => True) (fun _ => True) (fun _ => False)
           (fun e _ => unbound_resolver e) (fun _ _ => True)).
  - apply unbound_rules.
  - apply unbound_rules.
  - apply policy_any.
  - intros st' _. unfold txt_records. by destruct (rec_TXT rs).
  - intros st' _. by apply wp_await.
  - intros crt st' _. unfold subdomain_nodes. apply wp_for_each_raises.
    + intros x st0 _.
      eapply stage_subdomain_step; [apply unbound_rules | apply policy_any | done].
    + exists c. split; [|intros st0; by apply subdomain_step_unbound, candidate_ne_root].
      rewrite (Horder _), elem_of_elements, elem_of_add_crtsh_subdomains. left.
      apply elem_of_wordlist_subdomains. split; [done |].
      by eapply truthy_normalizeDomainForDNS.
  - done.
Qed.

(** X15. With the resolver name unbound, as in the module, a call of
    [run_dns_enum] whose root has at least one wordlist candidate that the
    Normalizer accepts never returns a graph: it raises [NameError] for the
    name [run_port_scan_resolve_domain_to_ip], whatever the upstream
    replies. *)
Theorem run_dns_enum_unbound_raises (idna_encode : string -> option string)
    (w : World) (domain : string) (c out : string) :
  set_order_ok w ->
  c ∈ wordlist_candidates (normalize_value domain) ->
  normalizeDomainForDNS idna_encode c = Some out ->
  fst (run_dns_enum idna_encode module_globals w domain)
  = Raise (NameError "run_port_scan_resolve_domain_to_ip").
Proof.
  intros Horder Hc Hout.
  pose proof (run_dns_enum_wp idna_encode module_globals w domain _ _
                (enum_from_records_unbound idna_encode w _ 0 _ c out _
                   Horder Hc Hout)) as H.
  destruct (run_dns_enum idna_encode module_globals w domain) as [[g|e] log].
  - by destruct H as (st & [[] _] & _).
  - cbn [fst]. destruct H as (st & He & _). by rewrite He.
Qed.

Lemma run_dns_enum_unbound_raises_witness :
  fst (run_dns_enum idna_ldh module_globals txt_world " Example.COM ")
  = Raise (NameError "run_port_scan_resolve_domain_to_ip").
Proof.
  apply (run_dns_enum_unbound_raises idna_ldh txt_world " Example.COM "
           "www.example.com" "www.example.com").
  - intros X. reflexivity.
  - vm_compute. left.
  - vm_compute. reflexivity.
Defined.

(** ** Further properties: the Normalizer *)

(** X16. Whatever [idna.encode] returns, a name that the Normalizer
    returns is the lower-cased encoding of its input; it is lower-case and
    not empty, holds no two consecutive dots, and neither starts nor ends
    with a hyphen; and the input held no two consecutive dots either. *)
Theorem normalizeDomainForDNS_output (idna_encode : string -> option string)
    (domain out : string) :
  normalizeDomainForDNS idna_encode domain = Some out ->
  (exists encoded, idna_encode domain = Some encoded /\ out = lower encoded)
  /\ lower out = out
  /\ out <> EmptyString
  /\ contains ".." domain = false
  /\ contains ".." out = false
  /\ startswith out "-" = false
  /\ endswith out "-" = false.
Proof.
  intros H.
  pose proof (normalizeDomainForDNS_Some _ _ _ H) as (a & Ha & -> & Hdots & Hne & Hs & He).
  split; [by exists a |]. split; [apply lower_idem |].
  split; [by apply String.eqb_neq |]. split; [|done].
  unfold normalizeDomainForDNS in H. by destruct (contains ".." domain).
Qed.

Lemma normalizeDomainForDNS_output_witness :
  (exists encoded,
     idna_ldh "WWW.Example.com" = Some encoded /\ "www.example.com" = lower encoded)
  /\ lower "www.example.com" = "www.example.com"
  /\ "www.example.com" <> EmptyString
  /\ contains ".." "WWW.Example.com" = false
  /\ contains ".." "www.example.com" = false
  /\ startswith "www.example.com" "-" = false
  /\ endswith "www.example.com" "-" = false.
Proof.
  apply (normalizeDomainForDNS_output idna_ldh "WWW.Example.com" "www.example.com").
  vm_compute. reflexivity.
Defined.
